(** * joj blockchain: hash chaining, proof of work, validation and balances

    A shallow embedding of the ledger code of the repository
    (behavior/BlockChainLogic.js, the domain Block and Transaction, the
    Validation listing of chapter 5 and common/helpers.js) together with the
    properties the specification states about it.

    JS numbers are embedded as [Z] where the code stores, compares, negates
    or counts them up: block timestamps, nonces, ids and the amounts a Money
    holds.  Where the code adds numbers with the library's [add] (the earlier
    revision of the balance), the numbers and their operations are taken as
    given.  A value that may be [undefined] or [null] is an [option], with
    [None] for the absent value; [===] on strings and on such values is
    decidable equality, and [===] on values of any kind (the Validation
    listing) is taken as given. *)

From stdpp Require Import base numbers list strings functions.
From Stdlib Require Import ZArith Lia Ascii String.

Local Open Scope string_scope.
Local Open Scope list_scope.
Local Open Scope Z_scope.

(** ** The JavaScript runtime the code relies on *)

(** What the code throws: the [TypeError] of the runtime, and the plain
    [Error] of a [throw new Error(...)]. *)
Inductive JsError : Type :=
| TypeError (message : string)
| Error (message : string).

(** The outcome of a call that may throw. *)
Inductive Result (A : Type) : Type :=
| Return (value : A)
| Throw (error : JsError).
Arguments Return {A} value.
Arguments Throw {A} error.

(** Sequencing: a [Throw] propagates.  With this instance the notation
    [x ← r; k] reads as "evaluate [r], bind its value to [x], continue". *)
#[global] Instance Result_bind : MBind Result := fun A B k r =>
  match r with
  | Return a => k a
  | Throw e => Throw e
  end.

(** [Array.prototype.reduce] called without an initial value: the first
    element seeds the fold, and an empty array throws. *)
Definition Array_reduce1 {A : Type} (f : A -> A -> A) (xs : list A) : Result A :=
  match xs with
  | [] => Throw (TypeError "Reduce of empty array with no initial value")
  | x :: rest => Return (fold_left f rest x)
  end.

(** [Array.prototype.reduce] with an initial value. *)
Definition Array_reduce {A B : Type} (f : B -> A -> B) (seed : B) (xs : list A) : B :=
  fold_left f xs seed.

(** [Array.prototype.every]. *)
Definition Array_every {A : Type} (p : A -> bool) (xs : list A) : bool :=
  forallb p xs.

(** ['0'.repeat(n)]. *)
Fixpoint repeat0 (n : nat) : string :=
  match n with
  | O => ""
  | S n' => String "0"%char (repeat0 n')
  end.

(** [''.padStart(n, '0')]: a target length that is not positive leaves the
    empty string as it is. *)
Definition padStart0 (n : Z) : string := repeat0 (Z.to_nat n).

(** [s.startsWith(prefix)]. *)
Fixpoint startsWith (s hashPrefix : string) {struct hashPrefix} : bool :=
  match hashPrefix with
  | EmptyString => true
  | String a hashPrefix' =>
      match s with
      | EmptyString => false
      | String b s' => if Ascii.eqb a b then startsWith s' hashPrefix' else false
      end
  end.

(** Number of leading ['0'] characters of a string. *)
Fixpoint leadingZeros (s : string) : nat :=
  match s with
  | String "0"%char rest => S (leadingZeros rest)
  | _ => O
  end.

(** ** common/helpers.js and ramda *)

(** ramda's [concat] on arrays: [concat(a, b) = a.concat(b)]. *)
Definition ramda_concat {A : Type} (a b : list A) : list A := a ++ b.

(** helpers.js: [concat = (a, whole) => whole.concat(a)]. *)
Definition concat {A : Type} (a whole : list A) : list A := whole ++ a.

(** helpers.js: [Array.prototype.split = function (pred1, pred2)]. *)
Definition split {A : Type} (this : list A) (pred1 pred2 : A -> bool) : list A * list A :=
  (List.filter pred1 this, List.filter pred2 this).

(** helpers.js: [Array.prototype.multiMap], called on the two-element array
    that [split] returns: [first] is the first group and [second] the
    one-element array holding the other group, which the unseeded
    [reduce(concat)] returns as it is. *)
Definition multiMap {A B : Type} (this : list A * list A) (fn1 fn2 : A -> B) : list B :=
  let (first, second) := this in
  map fn1 first ++ map fn2 second.

(** Modelled from the spec: [flatBiMap] (named [biFlatMap] in the earlier
    revision) is not defined in the helpers.js at hand, which carries the same
    operation under the name [multiMap]: the first function maps the first
    group, the second function the second group, and the results are laid out
    in one array. *)
Definition flatBiMap {A B : Type} (this : list A * list A) (fn1 fn2 : A -> B) : list B :=
  multiMap this fn1 fn2.

(** ** Data model *)

(** An address is a string, or [null] for the sender of a reward. *)
Definition Address : Type := option string.

(** Modelled from the spec: Money (data/Money is not among the sources) is a
    currency tag and a numeric amount. *)
Record Money : Type := mkMoney {
  currency : string;
  amount : Z
}.

(** Modelled from the spec: the ledger's transaction record
    (data/Transaction is not among the sources), as BlockChainLogic.js builds
    it, [Transaction(sender, recipient, money)], and reads it,
    [tx.fromAddress], [tx.toAddress], [tx.money]. *)
Record Transaction : Type := mkTransaction {
  fromAddress : Address;
  toAddress : Address;
  money : Money
}.

#[global] Instance Money_eq_dec : EqDecision Money.
Proof. solve_decision. Defined.

#[global] Instance Transaction_eq_dec : EqDecision Transaction.
Proof. solve_decision. Defined.

(** The domain Block: the fields its constructor sets.  The back-reference
    [blockchain] is not a field here: the ledger is passed to the operations
    that look blocks up. *)
Record Block : Type := mkBlock {
  id : option Z;
  previousHash : option string;
  pendingTransactions : list Transaction;
  difficulty : Z;
  nonce : Z;
  timestamp : Z;
  hash : option string
}.

#[global] Instance Block_eq_dec : EqDecision Block.
Proof. solve_decision. Defined.

Definition set_id (v : option Z) (b : Block) : Block :=
  mkBlock v (previousHash b) (pendingTransactions b) (difficulty b) (nonce b) (timestamp b) (hash b).
Definition set_previousHash (v : option string) (b : Block) : Block :=
  mkBlock (id b) v (pendingTransactions b) (difficulty b) (nonce b) (timestamp b) (hash b).
Definition set_pendingTransactions (v : list Transaction) (b : Block) : Block :=
  mkBlock (id b) (previousHash b) v (difficulty b) (nonce b) (timestamp b) (hash b).
Definition set_difficulty (v : Z) (b : Block) : Block :=
  mkBlock (id b) (previousHash b) (pendingTransactions b) v (nonce b) (timestamp b) (hash b).
Definition set_nonce (v : Z) (b : Block) : Block :=
  mkBlock (id b) (previousHash b) (pendingTransactions b) (difficulty b) v (timestamp b) (hash b).
Definition set_timestamp (v : Z) (b : Block) : Block :=
  mkBlock (id b) (previousHash b) (pendingTransactions b) (difficulty b) (nonce b) v (hash b).
Definition set_hash (v : option string) (b : Block) : Block :=
  mkBlock (id b) (previousHash b) (pendingTransactions b) (difficulty b) (nonce b)
    (timestamp b) v.

(** ** The Validation type of listing 5.6.5 *)

(** [Success] holds a value, [Failure] holds the error.  The classes are built
    through [Success.of] and [Failure.of] only. *)
Inductive Validation (E A : Type) : Type :=
| Success (a : A)
| Failure (error : E).
Arguments Success {E A} a.
Arguments Failure {E A} error.

(** [Validation.of(value) = Validation.Success(value) = Success.of(value)]. *)
Definition Validation_of {E A : Type} (value : A) : Validation E A := Success value.

Definition isSuccess {E A : Type} (v : Validation E A) : bool :=
  match v with Success _ => true | Failure _ => false end.

Definition isFailure {E A : Type} (v : Validation E A) : bool :=
  match v with Success _ => false | Failure _ => true end.

(** [get()]: the value of a [Success]; [Failure] overrides it with
    [throw new Error(...)]. *)
Definition Validation_get {E A : Type} (v : Validation E A) : Result A :=
  match v with
  | Success a => Return a
  | Failure _ => Throw (Error "Can't extract the value of a Failure")
  end.

(** [Failure.SHORT_CIRCUIT = true]; [Success] is given [Functor()] and
    [Monad()], whose flag is absent. *)
Definition SHORT_CIRCUIT {E A : Type} (v : Validation E A) : bool := isFailure v.

(** [Functor(shortCircuit).map]: on a [Success] the species constructor is
    [Success], so the result is [Success.of(f(this.get()))]; on a [Failure] the
    flag is set and [this] is returned. *)
Definition Validation_map {E A B : Type} (f : A -> B) (this : Validation E A)
    : Validation E B :=
  match this with
  | Success a => Success (f a)
  | Failure e => Failure e
  end.

(** [Monad(shortCircuit).flatMap]: [!shortCircuit ? this.map(f).get() : this].
    On a [Success], [this.map(f)] is [Success.of(f(a))], whose [get()] is
    [f(a)] itself. *)
Definition flatMap {E A B : Type} (f : A -> Validation E B) (this : Validation E A)
    : Validation E B :=
  match this with
  | Success a => f a
  | Failure e => Failure e
  end.

(** [chain] and [bind] are [flatMap]. *)
Definition chain {E A B : Type} (f : A -> Validation E B) (this : Validation E A)
    : Validation E B :=
  flatMap f this.

(** A validation pipeline: the entity is lifted with [Validation.of] and each
    check is attached with [flatMap], first check first, as in
    [Validation.of(this).flatMap(c1).flatMap(c2)]. *)
Definition runPipeline {E A : Type} (checks : list (A -> Validation E A)) (entity : A)
    : Validation E A :=
  fold_left (fun acc check => flatMap check acc) checks (Validation_of entity).

(** Modelled from the spec: [composeM] (util/fp/combinators.js is not among the
    sources) composes monadic functions right to left: the last function given
    runs first and every other one is attached to its result with [flatMap]. *)
Definition composeM {E A : Type} (fs : list (A -> Validation E A)) (x : A) : Validation E A :=
  match rev fs with
  | [] => Validation_of x
  | f :: rest => fold_left (fun acc g => flatMap g acc) rest (f x)
  end.

(** ** The ledger *)

(** Modelled from the spec: Blockchain (data/Blockchain is not among the
    sources) is an ordered, append-only sequence of blocks whose block at index
    0 is the genesis block, with the pending transactions awaiting the next
    mined block.  A ledger always holds its first block: [first] is
    [blockAt(0)] and [rest] the blocks pushed since. *)
Module Blockchain.
Record t : Type := mk {
  first : Block;
  rest : list Block;
  pendingTransactions : list Transaction
}.

Definition blocks (bc : t) : list Block := first bc :: rest bc.

Definition blockAt (bc : t) (i : nat) : option Block := blocks bc !! i.

Definition last (bc : t) : Block := List.last (rest bc) (first bc).

Definition size (bc : t) : nat := List.length (blocks bc).

Definition push (b : Block) (bc : t) : t :=
  mk (first bc) (rest bc ++ [b]) (pendingTransactions bc).

(** [lookUp(hash)]: the block whose hash matches, if any. *)
Definition lookUp (bc : t) (h : option string) : option Block :=
  List.find (fun b => bool_decide (hash b = h)) (blocks bc).

Definition set_pendingTransactions (txs : list Transaction) (bc : t) : t :=
  mk (first bc) (rest bc) txs.

(** The ledger with the block at index [i] replaced. *)
Definition replaceAt (i : nat) (b : Block) (bc : t) : t :=
  match i with
  | O => mk b (rest bc) (pendingTransactions bc)
  | S j => mk (first bc) (<[j := b]> (rest bc)) (pendingTransactions bc)
  end.
End Blockchain.

(** [isGenesis()]: [this.previousHash === '0'.repeat(64)]. *)
Definition isGenesis (this : Block) : bool :=
  bool_decide (previousHash this = Some (repeat0 64)).

(** [Array.prototype.every] over checks that may throw: the checks run in
    order and the first [false] or the first throw ends the run. *)
Fixpoint everyCheck {A : Type} (checks : list (A -> Result bool)) (x : A) : Result bool :=
  match checks with
  | [] => Return true
  | f :: rest =>
      r ← f x;
      if (r : bool) then everyCheck rest x else Return false
  end.

(** ** Block: hashing, validation and mining *)

Section BlockModel.

(** The digest function behind [HasHash]: the hash engine applied to the
    listed fields, in the declared order
    [['timestamp', 'previousHash', 'nonce', 'pendingTransactions']].  The
    engine itself is a fixed function outside the code at hand. *)
Variable HashEngine : Z -> option string -> Z -> list Transaction -> string.

(** [Block.calculateHash(block)]: the digest of the block's current
    fields. *)
Definition Block_calculateHash (b : Block) : string :=
  HashEngine (timestamp b) (previousHash b) (nonce b) (pendingTransactions b).

(** Modelled from the spec: the method [block.calculateHash()] of the
    [HasHash] mixin (shared/HasHash is not among the sources) recomputes the
    digest and stores it in [hash]; [addBlockTo] calls it for this effect
    and drops the value it returns. *)
Definition calculateHash (this : Block) : Block :=
  set_hash (Some (Block_calculateHash this)) this.

(** Modelled from the spec: the block checks (block/validations is not among
    the sources).  Length of the hash equals the digest length. *)
Definition checkLength (len : nat) (block : Block) : bool :=
  match hash block with
  | Some h => Nat.eqb (String.length h) len
  | None => false
  end.

(** Modelled from the spec: the hash is the digest of the current fields. *)
Definition checkNoTampering (block : Block) : bool :=
  bool_decide (hash block = Some (Block_calculateHash block)).

(** Modelled from the spec: the hash starts with [difficulty] zeros. *)
Definition checkDifficulty (difficulty : Z) (block : Block) : bool :=
  match hash block with
  | Some h => startsWith h (padStart0 difficulty)
  | None => false
  end.

(** Modelled from the spec: [previousHash] is the hash of the block looked
    up as previous. *)
Definition checkLinkage (previous : Block) (block : Block) : bool :=
  bool_decide (previousHash block = hash previous).

(** Modelled from the spec: the timestamp is not earlier than the previous
    block's. *)
Definition checkTimestamps (previous : Block) (block : Block) : bool :=
  timestamp previous <=? timestamp block.

(** A check that reads the previous block throws when the lookup found
    none. *)
Definition withPrevious (check : Block -> Block -> bool) (previous : option Block)
    (block : Block) : Result bool :=
  match previous with
  | Some p => Return (check p block)
  | None => Throw (TypeError "Cannot read properties of undefined")
  end.

(** [isValid()] of the domain Block. *)
Definition Block_isValid (blockchain : Blockchain.t) (this : Block)
    : Result (Validation (list string) bool) :=
  if isGenesis this then Return (Success true)
  else
    let previous := Blockchain.lookUp blockchain (previousHash this) in
    result ← everyCheck
      [ (fun b => Return (checkLength 64 b));
        (fun b => Return (checkNoTampering b));
        (fun b => Return (checkDifficulty (difficulty this) b));
        withPrevious checkLinkage previous;
        withPrevious checkTimestamps previous ] this;
    Return (if (result : bool)
            then Success true
            else Failure [("Validation failed for block "
                           ++ default "undefined" (hash this))%string]).

(** Modelled from the spec: [proofOfWork(block, hashPrefix, nonce)]
    (block/proof_of_work is not among the sources) sets the nonce,
    recomputes the hash and stops when the hash starts with the prefix;
    otherwise it goes on with the next nonce.  The search has no bound of
    its own: [fuel] bounds the number of attempts, and [None] means the
    fuel ran out. *)
Fixpoint proofOfWork (fuel : nat) (block : Block) (hashPrefix : string) (nonce : Z)
    : option Block :=
  match fuel with
  | O => None
  | S fuel' =>
      let attempt := calculateHash (set_nonce nonce block) in
      if startsWith (Block_calculateHash attempt) hashPrefix
      then Some attempt
      else proofOfWork fuel' block hashPrefix (nonce + 1)
  end.

(** The difficulty predicate at a nonce: the digest of the block carrying
    that nonce starts with the prefix. *)
Definition qualifies (block : Block) (hashPrefix : string) (nonce : Z) : bool :=
  startsWith (Block_calculateHash (set_nonce nonce block)) hashPrefix.

(** [mine()]: [proofOfWork(this, ''.padStart(this.difficulty, '0'), this.nonce)]. *)
Definition Block_mine (fuel : nat) (this : Block) : option Block :=
  proofOfWork fuel this (padStart0 (difficulty this)) (nonce this).

(** Modelled from the spec: [BlockLogic.mineBlock(difficulty, block)]
    (behavior/BlockLogic is not among the sources) runs the proof of work on
    the block with the given difficulty. *)
Definition BlockLogic_mineBlock (fuel : nat) (difficulty : Z) (block : Block) : option Block :=
  proofOfWork fuel block (padStart0 difficulty) (nonce block).


End BlockModel.

(** ** behavior/BlockChainLogic.js *)

Definition MINING_DIFFICULTY : Z := 2.


Section BlockChainLogic.

Variable HashEngine : Z -> option string -> Z -> list Transaction -> string.

(** Money's addition and its zero value ([Money.add], [Money.nothing()]):
    data/Money is not among the sources, so they are taken as given. *)
Variable Money_add : Money -> Money -> Money.
Variable Money_nothing : Money.

(** [addBlockTo(blockchain, newBlock)]: the block as it was pushed, and the
    ledger after the push. *)
Definition addBlockTo (blockchain : Blockchain.t) (newBlock : Block) : Block * Blockchain.t :=
  let newBlock := set_previousHash (hash (Blockchain.last blockchain)) newBlock in
  let newBlock := calculateHash HashEngine newBlock in
  (newBlock, Blockchain.push newBlock blockchain).

(** [mineBlockTo(blockchain, newBlock)]. *)
Definition mineBlockTo (fuel : nat) (blockchain : Blockchain.t) (newBlock : Block)
    : option (Block * Blockchain.t) :=
  let newBlock := set_previousHash (hash (Blockchain.last blockchain)) newBlock in
  newBlock ← BlockLogic_mineBlock HashEngine fuel MINING_DIFFICULTY newBlock;
  Some (newBlock, Blockchain.push newBlock blockchain).

(** The transactions of the blocks that are not genesis blocks, one array
    per block: [.blocks().filter(b => !b.isGenesis()).map(b => b.pendingTransactions)]. *)
Definition transactionsPerBlock (blockchain : Blockchain.t) : list (list Transaction) :=
  map pendingTransactions
    (List.filter (fun b => negb (isGenesis b)) (Blockchain.blocks blockchain)).

(** [calculateBalanceOfAddress(blockchain, address)], the revision on
    Money. *)
Definition calculateBalanceOfAddress (blockchain : Blockchain.t) (address : Address)
    : Result Money :=
  txs ← Array_reduce1 ramda_concat (transactionsPerBlock blockchain);
  Return
    (Array_reduce Money_add Money_nothing
       (flatBiMap
          (split txs
             (fun tx => bool_decide (fromAddress tx = address))
             (fun tx => bool_decide (toAddress tx = address)))
          (fun tx => mkMoney (currency (money tx)) (- amount (money tx)))
          (fun tx => mkMoney (currency (money tx)) (amount (money tx))))).



(** The test of one [Pair(current, previous)] in [isChainValid].  The right
    component is [blockchain.blockAt(currentIndex)], which is a block for
    every index the pairs are built at. *)
Definition pairIsValid (pair : Block * option Block) : bool :=
  let current := pair.1 in
  match pair.2 with
  | Some previous =>
      bool_decide (hash current = Some (Block_calculateHash HashEngine current))
      && bool_decide (previousHash current = hash previous)
  | None => false
  end.

(** [isChainValid(blockchain)]. *)
Definition isChainValid (blockchain : Blockchain.t) : bool :=
  Array_every pairIsValid
    (imap (fun currentIndex currentBlock =>
             (currentBlock, Blockchain.blockAt blockchain currentIndex))
       (drop 1 (Blockchain.blocks blockchain))).

End BlockChainLogic.

(** ** The earlier revision of calculateBalanceOfAddress

    behavior/BlockChainLogic.js under src/ works on bare numbers:
    [.biFlatMap(tx => -tx.amount, tx => tx.amount).reduce(add, 0)].  Its
    blocks and transactions (data/Block, data/Transaction of that revision)
    are not among the sources, and JS numbers with ramda's [add] are the
    language's and the library's: the types and what the function reads from
    them are taken as given. *)
Module Earlier.
Section Numbers.
Variable Number : Type.
Variable add : Number -> Number -> Number.
Variable negate : Number -> Number.
Variable zero : Number.
Variable Block : Type.
Variable Transaction : Type.
Variable isGenesis : Block -> bool.
Variable pendingTransactions : Block -> list Transaction.
Variable fromAddress : Transaction -> Address.
Variable toAddress : Transaction -> Address.
Variable amount : Transaction -> Number.

(** [calculateBalanceOfAddress(blockchain, address)]; [blocks] is what
    [blockchain.blocks()] returns. *)
Definition calculateBalanceOfAddress (blocks : list Block) (address : Address)
    : Result Number :=
  txs ← Array_reduce1 ramda_concat
          (map pendingTransactions (List.filter (fun b => negb (isGenesis b)) blocks));
  Return
    (Array_reduce add zero
       (flatBiMap
          (split txs
             (fun tx => bool_decide (fromAddress tx = address))
             (fun tx => bool_decide (toAddress tx = address)))
          (fun tx => negate (amount tx))
          (fun tx => amount tx))).
End Numbers.

Arguments calculateBalanceOfAddress {Number} add negate zero {Block Transaction}
  isGenesis pendingTransactions fromAddress toAddress amount blocks address.
End Earlier.

(** ** Blocks as objects

    A block is a mutable object and the ledger's array holds references to
    block objects.  [addBlockTo] writes to the object it is handed and pushes
    that same object, so a block the ledger already holds would be changed in
    place.  The store below makes the sharing explicit. *)
Module Store.

Definition ref : Type := nat.

(** The heap of block objects. *)
Definition Heap : Type := ref -> Block.

(** A ledger as an array of references. *)
Record Ledger : Type := mkLedger {
  first : ref;
  rest : list ref;
  pendingTransactions : list Transaction
}.

Definition refs (l : Ledger) : list ref := first l :: rest l.

Definition last (l : Ledger) : ref := List.last (rest l) (first l).

Definition push (r : ref) (l : Ledger) : Ledger :=
  mkLedger (first l) (rest l ++ [r]) (pendingTransactions l).

(** The blocks a ledger holds, read through the heap. *)
Definition read (h : Heap) (l : Ledger) : Blockchain.t :=
  Blockchain.mk (h (first l)) (map h (rest l)) (pendingTransactions l).

Section AddBlock.
Variable HashEngine : Z -> option string -> Z -> list Transaction -> string.

(** [addBlockTo(blockchain, newBlock)] on objects: two writes to the object
    [newBlock], then the push of the reference. *)
Definition addBlockTo (h : Heap) (blockchain : Ledger) (newBlock : ref) : Heap * Ledger :=
  let h := <[newBlock := set_previousHash (hash (h (last blockchain))) (h newBlock)]> h in
  let h := <[newBlock := calculateHash HashEngine (h newBlock)]> h in
  (h, push newBlock blockchain).

(** [addBlockTo] called for one object after the other, each call on the
    heap and the ledger the call before it left. *)
Fixpoint addBlocksTo (h : Heap) (blockchain : Ledger) (newBlocks : list ref) : Heap * Ledger :=
  match newBlocks with
  | [] => (h, blockchain)
  | newBlock :: newBlocks' =>
      let '(h', blockchain') := addBlockTo h blockchain newBlock in
      addBlocksTo h' blockchain' newBlocks'
  end.
End AddBlock.

End Store.

(** ** domain/Transaction.mjs *)

Module DomainTransaction.

(** The fields of the class; [funds] is a Money, the signature is absent
    for a reward. *)
Record t : Type := mk {
  sender : Address;
  recipient : Address;
  funds : Money;
  description : string;
  timestamp : Z;
  nonce : Z;
  id : string;
  hash : string;
  signature : option string
}.

Section IsValid.
(** The two checks come from transaction/validations.mjs and
    shared/validations.mjs, which are not among the sources. *)
Variable checkSignature : t -> Validation string t.
Variable checkTampering : t -> Validation string t.

(** [isValid()]: the last step answers [Success.of(true)] whatever it is
    given, so the value of the result is either the transaction or a
    boolean. *)
Definition isValid (this : t) : Validation string (t + bool) :=
  flatMap (fun _ => Success (inr true))
    (flatMap checkTampering
       (flatMap checkSignature (Validation_of this))).
End IsValid.

End DomainTransaction.

(** ** Listing 5.6.5: the block validated with [composeM] *)

Module Listing565.

Record Block : Type := mkBlock {
  index : Z;
  previousHash : string;
  data : list string;
  nonce : Z;
  difficulty : Z;
  timestamp : Z;
  hash : string
}.

Section IsValid.
(** [HasHash(['index', 'timestamp', 'previousHash', 'nonce', 'data'])]. *)
Variable HashEngine : Z -> Z -> string -> Z -> list string -> string.

Definition calculateHash (this : Block) : string :=
  HashEngine (index this) (timestamp this) (previousHash this) (nonce this) (data this).

Definition checkTimestamps (previousBlockTimestamp : Z) (block : Block)
    : Validation string Block :=
  if previousBlockTimestamp <=? timestamp block
  then Success block
  else Failure "Block timestamps out of order".

Definition checkIndex (previousBlockIndex : Z) (block : Block) : Validation string Block :=
  if previousBlockIndex <? index block
  then Success block
  else Failure "Block out of order".

Definition checkTampering (block : Block) : Validation string Block :=
  if bool_decide (hash block = calculateHash block)
  then Success block
  else Failure "Block hash is invalid".

(** [isValid()]: [lookUp] is the ledger's lookup by hash; destructuring
    its result throws when no block was found. *)
Definition isValid (lookUp : string -> option Block) (this : Block)
    : Result (Validation string Block) :=
  match lookUp (previousHash this) with
  | None => Throw (TypeError "Cannot destructure property 'index' of undefined")
  | Some previous =>
      Return
        (composeM
           [ checkTimestamps (timestamp previous);
             checkIndex (index previous);
             checkTampering;
             Validation_of ] this)
  end.
End IsValid.

End Listing565.

(** ** The specification's reading of the operations *)

Section SpecReadings.

Variable HashEngine : Z -> option string -> Z -> list Transaction -> string.
Variable Money_add : Money -> Money -> Money.
Variable Money_nothing : Money.

(** The standard checks of a block against its predecessor, all five. *)
Definition standardChecks (previous current : Block) : bool :=
  checkLength 64 current
  && checkNoTampering HashEngine current
  && checkDifficulty (difficulty current) current
  && checkLinkage previous current
  && checkTimestamps previous current.

(** Every block after index 0, paired with its predecessor, passes all the
    standard checks. *)
Definition everyPairPassesStandardChecks (blockchain : Blockchain.t) : Prop :=
  forall (i : nat) (previous current : Block),
    Blockchain.blockAt blockchain i = Some previous ->
    Blockchain.blockAt blockchain (S i) = Some current ->
    standardChecks previous current = true.

(** The two conditions [isChainValid] tests: the hash is the digest of the
    current fields, and [previousHash] is the hash of the block before. *)
Definition hashedAndLinked (previous current : Block) : Prop :=
  hash current = Some (Block_calculateHash HashEngine current)
  /\ previousHash current = hash previous.

Definition everyPairHashedAndLinked (blockchain : Blockchain.t) : Prop :=
  forall (i : nat) (previous current : Block),
    Blockchain.blockAt blockchain i = Some previous ->
    Blockchain.blockAt blockchain (S i) = Some current ->
    hashedAndLinked previous current.

(** One step of the balance fold: the amount is subtracted when the sender
    is the address and added when the recipient is.  This is the loop body
    of the imperative version kept in the comment of BlockChainLogic.js. *)
Definition applyTransaction (address : Address) (balance : Money) (tx : Transaction) : Money :=
  let balance :=
    if bool_decide (fromAddress tx = address)
    then Money_add balance (mkMoney (currency (money tx)) (- amount (money tx)))
    else balance in
  if bool_decide (toAddress tx = address)
  then Money_add balance (money tx)
  else balance.

(** The balance as the fold over the transactions of every block that is
    not a genesis block, from the zero Money. *)
Definition balanceOf_fold (blockchain : Blockchain.t) (address : Address) : Money :=
  fold_left (applyTransaction address)
    (List.concat (transactionsPerBlock blockchain)) Money_nothing.

(** What one transaction contributes to the amount of an address. *)
Definition netAmount (address : Address) (tx : Transaction) : Z :=
  (if bool_decide (toAddress tx = address) then amount (money tx) else 0)
  - (if bool_decide (fromAddress tx = address) then amount (money tx) else 0).

End SpecReadings.

(** The sum of a list of amounts. *)
Definition Zsum (l : list Z) : Z := fold_right Z.add 0 l.

(** The two groups of amounts [calculateBalanceOfAddress] lays out for an
    address: the negated amounts of the transactions it sent, then the amounts
    of the transactions it received. *)
Definition signedAmounts (address : Address) (txs : list Transaction) : list Money :=
  flatBiMap
    (split txs
       (fun tx => bool_decide (fromAddress tx = address))
       (fun tx => bool_decide (toAddress tx = address)))
    (fun tx => mkMoney (currency (money tx)) (- amount (money tx)))
    (fun tx => mkMoney (currency (money tx)) (amount (money tx))).

(** Two blocks that differ at most in the order of their transactions. *)
Definition sameUpToTransactionOrder (b b' : Block) : Prop :=
  id b = id b' /\ previousHash b = previousHash b' /\ difficulty b = difficulty b'
  /\ nonce b = nonce b' /\ timestamp b = timestamp b' /\ hash b = hash b'
  /\ pendingTransactions b ≡ₚ pendingTransactions b'.

(** Two ledgers that hold the same blocks, processed in any order, each with
    its transactions in any order. *)
Definition reordered (bc bc' : Blockchain.t) : Prop :=
  exists shuffled : list Block,
    Blockchain.blocks bc ≡ₚ shuffled
    /\ Forall2 sameUpToTransactionOrder shuffled (Blockchain.blocks bc').

(** The fields of the domain Block. *)
Inductive Field : Type :=
| f_id | f_previousHash | f_pendingTransactions | f_difficulty
| f_nonce | f_timestamp | f_hash.

(** [mutated f b b']: [b'] is [b] with the single field [f] changed to a
    different value, and nothing else touched. *)
Inductive mutated : Field -> Block -> Block -> Prop :=
| mutated_id b v : v <> id b -> mutated f_id b (set_id v b)
| mutated_previousHash b v :
    v <> previousHash b -> mutated f_previousHash b (set_previousHash v b)
| mutated_pendingTransactions b v :
    v <> pendingTransactions b -> mutated f_pendingTransactions b (set_pendingTransactions v b)
| mutated_difficulty b v : v <> difficulty b -> mutated f_difficulty b (set_difficulty v b)
| mutated_nonce b v : v <> nonce b -> mutated f_nonce b (set_nonce v b)
| mutated_timestamp b v : v <> timestamp b -> mutated f_timestamp b (set_timestamp v b)
| mutated_hash b v : v <> hash b -> mutated f_hash b (set_hash v b).

(** The fields [isChainValid] can see: the hashed ones, [previousHash] and
    [hash] itself.  The id and the difficulty are in neither the [HasHash]
    list nor the chain test. *)
Definition observed (f : Field) : bool :=
  match f with
  | f_id | f_difficulty => false
  | _ => true
  end.

(** The fields a change of which the chain test can only see through the
    digest. *)
Definition hashedOnly (f : Field) : bool :=
  match f with
  | f_pendingTransactions | f_nonce | f_timestamp => true
  | _ => false
  end.

(** ** Sample instances

    A concrete digest and a concrete Money addition, to run the definitions
    on. *)

Definition hexDigit (n : Z) : ascii :=
  match n with
  | 0 => "0" | 1 => "1" | 2 => "2" | 3 => "3" | 4 => "4" | 5 => "5" | 6 => "6" | 7 => "7"
  | 8 => "8" | 9 => "9" | 10 => "a" | 11 => "b" | 12 => "c" | 13 => "d" | 14 => "e" | _ => "f"
  end%char.

Fixpoint hexOf (digits : nat) (v : Z) (acc : string) : string :=
  match digits with
  | O => acc
  | S d => hexOf d (v / 16) (String (hexDigit (v mod 16)) acc)
  end.

Fixpoint stringCode (s : string) : Z :=
  match s with
  | EmptyString => 7
  | String c rest => (Z.of_nat (nat_of_ascii c) + 131 * stringCode rest) mod 1000000007
  end.

Definition addressCode (a : Address) : Z :=
  match a with None => 3 | Some s => stringCode s end.

Definition transactionCode (tx : Transaction) : Z :=
  addressCode (fromAddress tx) + 31 * addressCode (toAddress tx)
  + 961 * stringCode (currency (money tx)) + 29791 * amount (money tx).

(** A 64-digit hexadecimal digest of the four hashed fields. *)
Definition sampleHashEngine (timestamp : Z) (previousHash : option string) (nonce : Z)
    (pendingTransactions : list Transaction) : string :=
  let fields :=
    timestamp * 1000003 + addressCode previousHash * 10007 + nonce * 7919
    + fold_left (fun acc tx => 17 * acc + transactionCode tx) pendingTransactions 1 in
  hexOf 64
    ((fields * 0x9E3779B97F4A7C15F39CC0605CEDC8341082276BF3A27251F86C6A11D0C18E95 + 0x5bd1e995)
     mod 2 ^ 256) "".

(** Money addition that keeps the currency of the running total. *)
Definition sampleMoney_add (m1 m2 : Money) : Money :=
  mkMoney (currency m1) (amount m1 + amount m2).

Definition sampleMoney_nothing : Money := mkMoney "" 0.

(** The ledger the samples start from: a genesis block with its hash in
    place, and one funding transaction waiting to be mined. *)
Definition sampleGenesis : Block :=
  calculateHash sampleHashEngine (mkBlock (Some 0) (Some (repeat0 64)) [] 2 0 1000 None).

Definition sampleFunding : Transaction :=
  mkTransaction None (Some "bob") (mkMoney "₿" 4).

Definition sampleLedger : Blockchain.t :=
  Blockchain.mk sampleGenesis [] [sampleFunding].

(** A block created before the genesis block of [sampleLedger], carrying one
    transfer. *)
Definition sampleEarlyBlock : Block :=
  mkBlock (Some 1) None [mkTransaction (Some "bob") (Some "carol") (mkMoney "₿" 1)]
    2 0 500 None.

(** [sampleLedger] after [addBlockTo] pushed [sampleEarlyBlock]. *)
Definition sampleLedger2 : Blockchain.t :=
  (addBlockTo sampleHashEngine sampleLedger sampleEarlyBlock).2.

(** A ledger with two mined-looking blocks, and the same ledger with its
    blocks in another order and the transactions of one block swapped. *)
Definition sampleTransfer1 : Transaction :=
  mkTransaction (Some "bob") (Some "carol") (mkMoney "₿" 3).
Definition sampleTransfer2 : Transaction :=
  mkTransaction (Some "carol") (Some "bob") (mkMoney "₿" 1).
Definition sampleTransfer3 : Transaction :=
  mkTransaction (Some "bob") (Some "bob") (mkMoney "₿" 50).

Definition sampleOrderedLedger : Blockchain.t :=
  Blockchain.mk sampleGenesis
    [ mkBlock (Some 1) (Some "aa") [sampleFunding; sampleTransfer1] 2 0 2000 (Some "bb");
      mkBlock (Some 2) (Some "bb") [sampleTransfer2; sampleTransfer3] 2 0 3000 (Some "cc") ]
    [].

Definition sampleShuffledLedger : Blockchain.t :=
  Blockchain.mk
    (mkBlock (Some 2) (Some "bb") [sampleTransfer3; sampleTransfer2] 2 0 3000 (Some "cc"))
    [ sampleGenesis;
      mkBlock (Some 1) (Some "aa") [sampleFunding; sampleTransfer1] 2 0 2000 (Some "bb") ]
    [].

(** A heap with the two blocks of [sampleLedger2] at references 0 and 1 and a
    fresh block object at reference 2, and the ledger that holds the first
    two. *)
Definition sampleHeap : Store.Heap :=
  fun r =>
    match r with
    | O => sampleGenesis
    | S O => calculateHash sampleHashEngine
               (set_previousHash (hash sampleGenesis) sampleEarlyBlock)
    | _ => mkBlock (Some 2) None [] 2 0 3000 None
    end.

Definition sampleStoreLedger : Store.Ledger := Store.mkLedger 0%nat [1%nat] [sampleFunding].

(** [sampleHeap] with two more block objects, at references 3 and 4, each
    with transactions of its own. *)
Definition sampleHeapTransfers : Store.Heap :=
  fun r =>
    match r with
    | 3%nat => mkBlock (Some 3) None [sampleFunding; sampleTransfer1] 2 0 4000 None
    | 4%nat => mkBlock (Some 4) None [sampleTransfer2] 2 0 5000 None
    | _ => sampleHeap r
    end.

(** A reward transaction of the domain class: no sender, no signature. *)
Definition sampleReward : DomainTransaction.t :=
  DomainTransaction.mk None (Some "alice") (mkMoney "₿" 100) "Mining reward" 2000 0
    "9f2c" "9f2c" None.

(** ** Further operations of the sources *)

(** helpers.js: [Array.prototype.multiMap] on any array of groups:
    [const [first, ...second] = this] and then
    [first.map(fn1).concat(second.reduce(concat).map(fn2))], with the [concat]
    of helpers.js.  On the empty array [first] is [undefined] and [first.map]
    throws; with no second group the unseeded [reduce] throws. *)
Definition Array_multiMap {A B : Type} (this : list (list A)) (fn1 fn2 : A -> B)
    : Result (list B) :=
  match this with
  | [] => Throw (TypeError "Cannot read properties of undefined (reading 'map')")
  | first :: second =>
      merged ← Array_reduce1 concat second;
      Return (map fn1 first ++ map fn2 merged)
  end.

(** Listing 5.6.5: the value a Validation holds in [#val], whichever the
    class. *)
Definition Validation_val {V : Type} (this : Validation V V) : V :=
  match this with
  | Success a => a
  | Failure e => e
  end.

(** Listing 5.6.5: [equals(otherValidation)] is
    [this.#val === otherValidation.get()].  The comparison [===] is the
    language's (identity on objects and arrays, and NaN differs from itself):
    it is taken as given, as [strictEquals]. *)
Definition Validation_equals {V : Type} (strictEquals : V -> V -> bool)
    (this other : Validation V V) : Result bool :=
  v ← Validation_get other;
  Return (strictEquals (Validation_val this) v).

(** Listing 5.6.5: [new Block(index, previousHash, data = [], difficulty = 0)],
    created at the instant [now]: the hash is computed last, from the fields
    as set. *)
Definition Listing565_new (HashEngine : Z -> Z -> string -> Z -> list string -> string)
    (now : Z) (index : Z) (previousHash : string) (data : option (list string))
    (difficulty : option Z) : Listing565.Block :=
  let unhashed :=
    Listing565.mkBlock index previousHash (default [] data) 0 (default 0 difficulty) now "" in
  Listing565.mkBlock index previousHash (default [] data) 0 (default 0 difficulty) now
    (Listing565.calculateHash HashEngine unhashed).

(** Listing 5.6.5: the assignment [block.data = ...]. *)
Definition Listing565_set_data (data : list string) (b : Listing565.Block) : Listing565.Block :=
  Listing565.mkBlock (Listing565.index b) (Listing565.previousHash b) data
    (Listing565.nonce b) (Listing565.difficulty b) (Listing565.timestamp b)
    (Listing565.hash b).

(** ** infrastructure/network/Network.js *)

Module Network.
Section Nodes.
(** [MAX_NODES] comes from common/settings and the class [Node] from ./Node,
    neither among the sources: the bound and the constructor are taken as
    given.  The difficulty of a node is drawn at random by the caller. *)
Variable MAX_NODES : nat.
Variable Node : Type.
Variable newNode : string -> Address -> Z -> Node.

(** [addMinerNode(displayName, address)] on the array [#nodes]: the string
    thrown, or the node created with the array after the push. *)
Definition addMinerNode (nodes : list Node) (displayName : string) (address : Address)
    (difficulty : Z) : string + (Node * list Node) :=
  if (MAX_NODES <=? List.length nodes)%nat
  then inl "Max Nodes Exceeded!"
  else
    let minerNode := newNode displayName address difficulty in
    inr (minerNode, nodes ++ [minerNode]).

(** The array after a call, thrown or not. *)
Definition nodesAfter (nodes : list Node) (call : string * Address * Z) : list Node :=
  match addMinerNode nodes call.1.1 call.1.2 call.2 with
  | inl _ => nodes
  | inr (_, nodes') => nodes'
  end.
End Nodes.
End Network.

(** The genesis block of [sampleLedger] with its content replaced and its
    hash field kept. *)
Definition sampleForgedGenesis : Block :=
  mkBlock (Some 99) (Some "forged") [sampleTransfer3] 7 41 (-5) (hash sampleGenesis).

(** A digest for the block of listing 5.6.5, over its five hashed fields. *)
Definition sampleHashEngine565 (index timestamp : Z) (previousHash : string) (nonce : Z)
    (data : list string) : string :=
  hexOf 64
    (((index * 1000003 + timestamp * 10007 + stringCode previousHash * 7919 + nonce * 31
       + fold_left (fun acc s => 17 * acc + stringCode s) data 1)
      * 0x9E3779B97F4A7C15F39CC0605CEDC8341082276BF3A27251F86C6A11D0C18E95)
     mod 2 ^ 256) "".

(** The first block of a listing ledger, and the lookup of a ledger that holds
    it only. *)
Definition sampleBlock565 : Listing565.Block :=
  Listing565_new sampleHashEngine565 1000 0 (repeat0 64) None None.

Definition sampleLookUp565 (h : string) : option Listing565.Block :=
  if bool_decide (h = Listing565.hash sampleBlock565) then Some sampleBlock565 else None.

(** * Properties *)

(** ** Arrays *)

Lemma forallb_lookup {A : Type} (p : A -> bool) (l : list A) :
  forallb p l = true <-> forall (i : nat) (x : A), l !! i = Some x -> p x = true.
Proof.
  rewrite forallb_forall. split.
  - intros H i x Hi. apply H, list_elem_of_In, list_elem_of_lookup. eauto.
  - intros H x Hx. apply list_elem_of_In, list_elem_of_lookup in Hx as [i Hi]. eauto.
Qed.

Lemma forallb_false_lookup {A : Type} (p : A -> bool) (l : list A) (i : nat) (x : A) :
  l !! i = Some x -> p x = false -> forallb p l = false.
Proof.
  intros Hi Hp. destruct (forallb p l) eqn:E; [|reflexivity].
  rewrite (proj1 (forallb_lookup p l) E i x Hi) in Hp. discriminate.
Qed.

(** ** The chain test *)

Section ChainValidity.

Variable HashEngine : Z -> option string -> Z -> list Transaction -> string.

Lemma pairIsValid_true (current previous : Block) :
  pairIsValid HashEngine (current, Some previous) = true
  <-> hashedAndLinked HashEngine previous current.
Proof.
  unfold pairIsValid, hashedAndLinked. simpl.
  rewrite andb_true_iff, !bool_decide_eq_true. reflexivity.
Qed.

(** The pairs [isChainValid] builds: the pair at position [i] holds the
    block at index [i + 1] and the block at index [i]. *)
Lemma pairs_lookup (bc : Blockchain.t) (i : nat) :
  imap (fun currentIndex currentBlock =>
          (currentBlock, Blockchain.blockAt bc currentIndex))
    (drop 1 (Blockchain.blocks bc)) !! i
  = (fun current => (current, Blockchain.blockAt bc i)) <$> Blockchain.blockAt bc (S i).
Proof. rewrite list_lookup_imap. reflexivity. Qed.

(** No pair holds an undefined previous block. *)
Lemma pairs_previous_defined (bc : Blockchain.t) (i : nat) (current : Block) :
  Blockchain.blockAt bc (S i) = Some current ->
  exists previous, Blockchain.blockAt bc i = Some previous.
Proof.
  unfold Blockchain.blockAt. intros H.
  apply lookup_lt_Some in H.
  destruct (lookup_lt_is_Some_2 (Blockchain.blocks bc) i) as [p Hp]; [lia|].
  exists p. exact Hp.
Qed.

Lemma isChainValid_iff (bc : Blockchain.t) :
  isChainValid HashEngine bc = true <-> everyPairHashedAndLinked HashEngine bc.
Proof.
  unfold isChainValid, Array_every, everyPairHashedAndLinked.
  rewrite forallb_lookup. split.
  - intros H i previous current Hp Hc.
    apply pairIsValid_true. apply (H i).
    rewrite pairs_lookup, Hc, Hp. reflexivity.
  - intros H i [current previous] Hi.
    rewrite pairs_lookup in Hi.
    destruct (Blockchain.blockAt bc (S i)) as [c|] eqn:Hc; simpl in Hi; [|discriminate].
    injection Hi as <- <-.
    destruct (pairs_previous_defined bc i c Hc) as [p Hp].
    rewrite Hp. apply pairIsValid_true. eauto.
Qed.

End ChainValidity.

(** ** Replacing and pushing blocks *)

Lemma blocks_replaceAt (i : nat) (b : Block) (bc : Blockchain.t) :
  Blockchain.blocks (Blockchain.replaceAt i b bc) = <[i := b]> (Blockchain.blocks bc).
Proof. destruct i; reflexivity. Qed.

Lemma blockAt_replaceAt_eq (i : nat) (b old : Block) (bc : Blockchain.t) :
  Blockchain.blockAt bc i = Some old ->
  Blockchain.blockAt (Blockchain.replaceAt i b bc) i = Some b.
Proof.
  unfold Blockchain.blockAt. intros H. rewrite blocks_replaceAt.
  apply list_lookup_insert_eq. eapply lookup_lt_Some, H.
Qed.

Lemma blockAt_replaceAt_ne (i k : nat) (b : Block) (bc : Blockchain.t) :
  i <> k ->
  Blockchain.blockAt (Blockchain.replaceAt i b bc) k = Blockchain.blockAt bc k.
Proof.
  unfold Blockchain.blockAt. intros H. rewrite blocks_replaceAt.
  apply list_lookup_insert_ne, H.
Qed.

Lemma last_cons_default {A : Type} (l : list A) (x d : A) :
  List.last (x :: l) d = List.last l x.
Proof.
  revert x d. induction l as [|y l IH]; intros x d; [reflexivity|].
  change (List.last (y :: l) d = List.last (y :: l) x).
  rewrite !IH. reflexivity.
Qed.

Lemma last_lookup_default {A : Type} (l : list A) (d : A) :
  (d :: l) !! List.length l = Some (List.last l d).
Proof.
  revert d. induction l as [|x l IH]; intros d; [reflexivity|].
  rewrite last_cons_default. apply IH.
Qed.

Lemma blockAt_last (bc : Blockchain.t) :
  Blockchain.blockAt bc (List.length (Blockchain.rest bc)) = Some (Blockchain.last bc).
Proof. apply last_lookup_default. Qed.

Lemma blocks_push (b : Block) (bc : Blockchain.t) :
  Blockchain.blocks (Blockchain.push b bc) = Blockchain.blocks bc ++ [b].
Proof. reflexivity. Qed.

(** After a push, an index either reads an old block or, at the old size, the
    block pushed. *)
Lemma blockAt_push (b : Block) (bc : Blockchain.t) (i : nat) (x : Block) :
  Blockchain.blockAt (Blockchain.push b bc) i = Some x ->
  Blockchain.blockAt bc i = Some x
  \/ (i = Blockchain.size bc /\ x = b).
Proof.
  unfold Blockchain.blockAt, Blockchain.size. rewrite blocks_push. intros H.
  apply lookup_app_Some in H as [H | [Hle H]]; [left; exact H|right].
  destruct (i - List.length (Blockchain.blocks bc))%nat as [|n] eqn:E; simpl in H.
  - injection H as <-. split; [lia|reflexivity].
  - discriminate.
Qed.

Section Tampering.

Variable HashEngine : Z -> option string -> Z -> list Transaction -> string.

(** The digest does not read the hash, the id or the difficulty. *)
Lemma calculateHash_set_hash (v : option string) (b : Block) :
  Block_calculateHash HashEngine (set_hash v b) = Block_calculateHash HashEngine b.
Proof. reflexivity. Qed.

(** A replacement that shows the chain test the same hash, previous hash
    and digest leaves the verdict as it was. *)
Lemma isChainValid_replaceAt_same (bc : Blockchain.t) (i : nat) (b b' : Block) :
  Blockchain.blockAt bc i = Some b ->
  hash b' = hash b ->
  previousHash b' = previousHash b ->
  Block_calculateHash HashEngine b' = Block_calculateHash HashEngine b ->
  isChainValid HashEngine bc = true ->
  isChainValid HashEngine (Blockchain.replaceAt i b' bc) = true.
Proof.
  intros Hb Hh Hp Hc Hvalid.
  rewrite isChainValid_iff in Hvalid |- *.
  intros k previous current Hprev Hcur.
  assert (Hlook : forall n x, Blockchain.blockAt (Blockchain.replaceAt i b' bc) n = Some x ->
            exists y, Blockchain.blockAt bc n = Some y /\ hash x = hash y
                      /\ previousHash x = previousHash y
                      /\ Block_calculateHash HashEngine x = Block_calculateHash HashEngine y).
  { intros n x Hn. destruct (decide (i = n)) as [->|Hne].
    - rewrite (blockAt_replaceAt_eq n b' b bc Hb) in Hn. injection Hn as <-. eauto.
    - rewrite blockAt_replaceAt_ne in Hn by exact Hne. eauto. }
  destruct (Hlook _ _ Hprev) as (p & Hp' & Hph & _ & _).
  destruct (Hlook _ _ Hcur) as (c & Hc' & Hch & Hcp & Hcc).
  destruct (Hvalid k p c Hp' Hc') as [H1 H2].
  split; congruence.
Qed.

(** A block after index 0 that fails the pair test against its unchanged
    predecessor makes the chain test fail. *)
Lemma isChainValid_replaceAt_broken (bc : Blockchain.t) (j : nat) (b b' previous : Block) :
  Blockchain.blockAt bc (S j) = Some b ->
  Blockchain.blockAt bc j = Some previous ->
  pairIsValid HashEngine (b', Some previous) = false ->
  isChainValid HashEngine (Blockchain.replaceAt (S j) b' bc) = false.
Proof.
  intros Hb Hprev Hbroken. unfold isChainValid, Array_every.
  apply (forallb_false_lookup _ _ j (b', Some previous)); [|exact Hbroken].
  rewrite pairs_lookup, (blockAt_replaceAt_eq (S j) b' b bc Hb).
  rewrite blockAt_replaceAt_ne by lia. rewrite Hprev. reflexivity.
Qed.

End Tampering.

(** ** What the chain test leaves out *)

Lemma blockAt_push_old (b : Block) (bc : Blockchain.t) (i : nat) (x : Block) :
  Blockchain.blockAt bc i = Some x ->
  Blockchain.blockAt (Blockchain.push b bc) i = Some x.
Proof.
  unfold Blockchain.blockAt. rewrite blocks_push. intros H.
  apply lookup_app_l_Some, H.
Qed.

Lemma blockAt_push_new (b : Block) (bc : Blockchain.t) :
  Blockchain.blockAt (Blockchain.push b bc) (Blockchain.size bc) = Some b.
Proof.
  unfold Blockchain.blockAt, Blockchain.size. rewrite blocks_push.
  rewrite lookup_app_r by lia. rewrite Nat.sub_diag. reflexivity.
Qed.

(** Whatever the digest function, a block created before the last block of
    the ledger and added with [addBlockTo] does not pass the standard checks
    against its predecessor: its timestamp is the earlier one. *)
Lemma addBlockTo_earlier_block_fails_standard_checks
    (HashEngine : Z -> option string -> Z -> list Transaction -> string)
    (bc : Blockchain.t) (newBlock : Block) :
  timestamp newBlock < timestamp (Blockchain.last bc) ->
  ~ everyPairPassesStandardChecks HashEngine (addBlockTo HashEngine bc newBlock).2.
Proof.
  intros Hearly Hall. unfold addBlockTo in Hall. cbn [snd] in Hall.
  set (pushed := calculateHash HashEngine
                   (set_previousHash (hash (Blockchain.last bc)) newBlock)) in *.
  specialize (Hall (List.length (Blockchain.rest bc)) (Blockchain.last bc) pushed
                (blockAt_push_old pushed bc _ _ (blockAt_last bc))
                (blockAt_push_new pushed bc)).
  unfold standardChecks in Hall. rewrite !andb_true_iff in Hall.
  destruct Hall as [_ Hts]. unfold checkTimestamps in Hts.
  apply Z.leb_le in Hts. simpl in Hts. lia.
Qed.

(** ** What the chain test decides *)

(** C1, as amended: [isChainValid] returns true if and only if every block
    after index 0 has a hash equal to the digest recomputed from its current
    fields and a [previousHash] equal to the hash of the block before it.
    The length of the hash, the difficulty prefix and the order of the
    timestamps are not tested: a chain whose pairs pass all five standard
    checks passes the chain test, and not the other way round. *)
Theorem isChainValid_tests_hash_and_linkage :
  forall (HashEngine : Z -> option string -> Z -> list Transaction -> string)
         (bc : Blockchain.t),
    (isChainValid HashEngine bc = true <-> everyPairHashedAndLinked HashEngine bc)
    /\ (everyPairPassesStandardChecks HashEngine bc -> isChainValid HashEngine bc = true).
Proof.
  intros HashEngine bc. split; [apply isChainValid_iff|].
  intros Hall. apply isChainValid_iff. intros i previous current Hp Hc.
  specialize (Hall i previous current Hp Hc).
  unfold standardChecks in Hall. rewrite !andb_true_iff in Hall.
  destruct Hall as [[[[_ Htamper] _] Hlink] _].
  unfold checkNoTampering in Htamper. unfold checkLinkage in Hlink.
  apply bool_decide_eq_true in Htamper, Hlink. split; assumption.
Qed.

Lemma isChainValid_tests_hash_and_linkage_witness :
  everyPairHashedAndLinked sampleHashEngine sampleLedger2.
Proof.
  apply (isChainValid_tests_hash_and_linkage sampleHashEngine sampleLedger2).
  vm_compute. reflexivity.
Defined.

(** C1 as stated fails on the ledger [addBlockTo] builds from a block created
    before the genesis block: the chain test accepts it, while the pair does
    not pass the standard checks (the timestamp is earlier than the previous
    one, and the hash, not mined, has no zero prefix). *)
Lemma isChainValid_not_standard_checks :
  ~ (isChainValid sampleHashEngine sampleLedger2 = true
     <-> everyPairPassesStandardChecks sampleHashEngine sampleLedger2).
Proof.
  intros [H _].
  assert (Hvalid : isChainValid sampleHashEngine sampleLedger2 = true)
    by (vm_compute; reflexivity).
  specialize (H Hvalid 0%nat sampleGenesis
                (calculateHash sampleHashEngine
                   (set_previousHash (hash sampleGenesis) sampleEarlyBlock))
                eq_refl eq_refl).
  vm_compute in H. discriminate H.
Qed.

(** C2, as amended: a ledger whose blocks after index 0 are hashed and linked
    passes the chain test; and on a ledger that passes it, changing one field
    of a block after index 0 makes the test fail exactly when the field is one
    the test observes: [hash], [previousHash], or one of [timestamp], [nonce],
    [pendingTransactions] provided the digest of the changed block differs
    from the digest of the original.  A change of [id] or [difficulty], which
    are not hashed, leaves the test true. *)
Theorem mutation_detected_iff_observed :
  forall (HashEngine : Z -> option string -> Z -> list Transaction -> string)
         (bc : Blockchain.t),
    (everyPairHashedAndLinked HashEngine bc -> isChainValid HashEngine bc = true)
    /\ (forall (j : nat) (b b' : Block) (f : Field),
          isChainValid HashEngine bc = true ->
          Blockchain.blockAt bc (S j) = Some b ->
          mutated f b b' ->
          (hashedOnly f = true ->
           Block_calculateHash HashEngine b' <> Block_calculateHash HashEngine b) ->
          isChainValid HashEngine (Blockchain.replaceAt (S j) b' bc) = negb (observed f)).
Proof.
  intros HashEngine bc. split; [apply isChainValid_iff|].
  intros j b b' f Hvalid Hb Hmut Hdigest.
  destruct (pairs_previous_defined bc j b Hb) as [previous Hprev].
  destruct (proj1 (isChainValid_iff HashEngine bc) Hvalid j previous b Hprev Hb)
    as [Hhash Hlink].
  assert (Hseen : forall c : Block,
            hash c <> Some (Block_calculateHash HashEngine c)
            \/ previousHash c <> hash previous ->
            isChainValid HashEngine (Blockchain.replaceAt (S j) c bc) = false).
  { intros c Hc.
    apply (isChainValid_replaceAt_broken HashEngine bc j b c previous Hb Hprev).
    unfold pairIsValid. simpl. apply andb_false_iff.
    destruct Hc as [Hc|Hc]; [left|right]; apply bool_decide_eq_false; exact Hc. }
  destruct Hmut as [b v Hv|b v Hv|b v Hv|b v Hv|b v Hv|b v Hv|b v Hv]; cbn [observed negb].
  - apply (isChainValid_replaceAt_same HashEngine bc (S j) b); auto.
  - apply Hseen. right. simpl. congruence.
  - apply Hseen. left. simpl. rewrite Hhash. intros [= Heq].
    apply (Hdigest eq_refl). symmetry. exact Heq.
  - apply (isChainValid_replaceAt_same HashEngine bc (S j) b); auto.
  - apply Hseen. left. simpl. rewrite Hhash. intros [= Heq].
    apply (Hdigest eq_refl). symmetry. exact Heq.
  - apply Hseen. left. simpl. rewrite Hhash. intros [= Heq].
    apply (Hdigest eq_refl). symmetry. exact Heq.
  - apply Hseen. left. simpl. rewrite calculateHash_set_hash. congruence.
Qed.

Lemma mutation_detected_iff_observed_witness :
  isChainValid sampleHashEngine
    (Blockchain.replaceAt 1
       (set_nonce 7 (calculateHash sampleHashEngine
                       (set_previousHash (hash sampleGenesis) sampleEarlyBlock)))
       sampleLedger2)
  = false.
Proof.
  apply (proj2 (mutation_detected_iff_observed sampleHashEngine sampleLedger2)
           0%nat
           (calculateHash sampleHashEngine
              (set_previousHash (hash sampleGenesis) sampleEarlyBlock))
           _ f_nonce).
  - vm_compute. reflexivity.
  - reflexivity.
  - apply mutated_nonce. vm_compute. discriminate.
  - intros _. vm_compute. discriminate.
Defined.

(** C2 as stated fails: on the valid ledger [sampleLedger2], changing the
    difficulty of the block at index 1 from 2 to 3, with its hash left as it
    is, leaves the chain test true. *)
Lemma mutation_of_difficulty_undetected :
  let b := calculateHash sampleHashEngine
             (set_previousHash (hash sampleGenesis) sampleEarlyBlock) in
  isChainValid sampleHashEngine sampleLedger2 = true
  /\ Blockchain.blockAt sampleLedger2 1 = Some b
  /\ mutated f_difficulty b (set_difficulty 3 b)
  /\ isChainValid sampleHashEngine
       (Blockchain.replaceAt 1 (set_difficulty 3 b) sampleLedger2) = true.
Proof.
  repeat split; try (vm_compute; reflexivity).
  apply mutated_difficulty. vm_compute. discriminate.
Qed.

(** ** Adding a block *)

(** On block values: pushing a block that points at the hash of the last
    block and carries its own digest keeps the chain test true. *)
Lemma addBlockTo_value_preserves_isChainValid
    (HashEngine : Z -> option string -> Z -> list Transaction -> string)
    (bc : Blockchain.t) (newBlock : Block) :
  isChainValid HashEngine bc = true ->
  isChainValid HashEngine (addBlockTo HashEngine bc newBlock).2 = true.
Proof.
  intros Hvalid.
  rewrite isChainValid_iff in Hvalid |- *.
  unfold addBlockTo. cbn [snd].
  set (pushed := calculateHash HashEngine
                   (set_previousHash (hash (Blockchain.last bc)) newBlock)).
  intros i previous current Hp Hc.
  apply blockAt_push in Hc as [Hc | [Hi ->]].
  - assert (Hp' : Blockchain.blockAt bc i = Some previous).
    { apply blockAt_push in Hp as [Hp | [Hi _]]; [exact Hp|].
      apply lookup_lt_Some in Hc. unfold Blockchain.size in Hi. lia. }
    exact (Hvalid i previous current Hp' Hc).
  - assert (Hlast : previous = Blockchain.last bc).
    { apply blockAt_push in Hp as [Hp | [Hi' _]].
      - unfold Blockchain.size, Blockchain.blocks in Hi. simpl in Hi.
        injection Hi as ->. rewrite blockAt_last in Hp. congruence.
      - lia. }
    subst previous. split; reflexivity.
Qed.

Lemma last_map {A B : Type} (f : A -> B) (l : list A) (d : A) :
  List.last (map f l) (f d) = f (List.last l d).
Proof.
  revert d. induction l as [|x l IH]; intros d; [reflexivity|].
  cbn [map]. rewrite !last_cons_default. apply IH.
Qed.

(** With a new block object, the writes of [addBlockTo] touch no block the
    ledger holds: the ledger read after the call is the ledger read before,
    with the new block pushed. *)
Lemma Store_addBlockTo_read
    (HashEngine : Z -> option string -> Z -> list Transaction -> string)
    (h : Store.Heap) (l : Store.Ledger) (newBlock : Store.ref) :
  newBlock ∉ Store.refs l ->
  Store.read (Store.addBlockTo HashEngine h l newBlock).1
             (Store.addBlockTo HashEngine h l newBlock).2
  = (addBlockTo HashEngine (Store.read h l) (h newBlock)).2.
Proof.
  intros Hnew. unfold Store.refs in Hnew.
  apply not_elem_of_cons in Hnew as [Hfirst Hrest].
  unfold Store.addBlockTo, addBlockTo, Store.read, Store.push, Blockchain.push.
  cbn [fst snd Store.first Store.rest Store.pendingTransactions
       Blockchain.first Blockchain.rest Blockchain.pendingTransactions].
  unfold Store.Heap, Store.ref in *.
  rewrite !fn_lookup_insert.
  rewrite !(fn_lookup_insert_ne _ newBlock (Store.first l)) by congruence.
  rewrite map_app. cbn [map]. rewrite fn_lookup_insert.
  f_equal. f_equal.
  - apply map_ext_in. intros r Hr.
    assert (newBlock <> r).
    { intros ->. apply Hrest, list_elem_of_In, Hr. }
    rewrite !fn_lookup_insert_ne by assumption. reflexivity.
  - unfold Blockchain.last, Store.last. cbn [Blockchain.first Blockchain.rest].
    rewrite last_map. reflexivity.
Qed.

(** The object [addBlockTo] was handed holds, after the call, the block as
    it was with the hash of the last block as its [previousHash] and the
    digest of the result as its [hash]. *)
Lemma Store_addBlockTo_newBlock
    (HashEngine : Z -> option string -> Z -> list Transaction -> string)
    (h : Store.Heap) (l : Store.Ledger) (newBlock : Store.ref) :
  (Store.addBlockTo HashEngine h l newBlock).1 newBlock
  = calculateHash HashEngine
      (set_previousHash (hash (Blockchain.last (Store.read h l))) (h newBlock)).
Proof.
  unfold Store.addBlockTo. cbn [fst].
  unfold Store.Heap, Store.ref in *.
  rewrite !fn_lookup_insert.
  unfold Blockchain.last, Store.last, Store.read. cbn [Blockchain.first Blockchain.rest].
  rewrite last_map. reflexivity.
Qed.

(** C10: on a ledger that passes the chain test, [addBlockTo] with a new
    block (an object the ledger does not hold yet) extends the ledger by that
    one object, which now holds the block re-linked and re-hashed: its
    [previousHash] is the hash of the block that was last, its [hash] is the
    digest of the block so linked.  The blocks held before are read as they
    were, the new one comes last, and the extended ledger passes the chain
    test. *)
Theorem addBlockTo_preserves_isChainValid :
  forall (HashEngine : Z -> option string -> Z -> list Transaction -> string)
         (h : Store.Heap) (blockchain : Store.Ledger) (newBlock : Store.ref),
    newBlock ∉ Store.refs blockchain ->
    isChainValid HashEngine (Store.read h blockchain) = true ->
    let h' := (Store.addBlockTo HashEngine h blockchain newBlock).1 in
    let blockchain' := (Store.addBlockTo HashEngine h blockchain newBlock).2 in
    let pushed :=
      calculateHash HashEngine
        (set_previousHash (hash (Blockchain.last (Store.read h blockchain))) (h newBlock)) in
    Store.refs blockchain' = Store.refs blockchain ++ [newBlock]
    /\ h' newBlock = pushed
    /\ Blockchain.blocks (Store.read h' blockchain')
       = Blockchain.blocks (Store.read h blockchain) ++ [pushed]
    /\ previousHash pushed = hash (Blockchain.last (Store.read h blockchain))
    /\ hash pushed = Some (Block_calculateHash HashEngine pushed)
    /\ isChainValid HashEngine (Store.read h' blockchain') = true.
Proof.
  intros HashEngine h l newBlock Hnew Hvalid h' l' pushed.
  assert (Hread : Store.read h' l' = Blockchain.push pushed (Store.read h l)).
  { unfold h', l'. rewrite Store_addBlockTo_read by exact Hnew. reflexivity. }
  split; [reflexivity|].
  split; [apply Store_addBlockTo_newBlock|].
  split; [rewrite Hread; apply blocks_push|].
  split; [reflexivity|].
  split; [reflexivity|].
  unfold h', l'. rewrite Store_addBlockTo_read by exact Hnew.
  apply addBlockTo_value_preserves_isChainValid, Hvalid.
Qed.

Lemma addBlockTo_preserves_isChainValid_witness :
  let h' := (Store.addBlockTo sampleHashEngine sampleHeap sampleStoreLedger 2%nat).1 in
  let blockchain' := (Store.addBlockTo sampleHashEngine sampleHeap sampleStoreLedger 2%nat).2 in
  let pushed :=
    calculateHash sampleHashEngine
      (set_previousHash (hash (Blockchain.last (Store.read sampleHeap sampleStoreLedger)))
         (sampleHeap 2%nat)) in
  Store.refs blockchain' = Store.refs sampleStoreLedger ++ [2%nat]
  /\ h' 2%nat = pushed
  /\ Blockchain.blocks (Store.read h' blockchain')
     = Blockchain.blocks (Store.read sampleHeap sampleStoreLedger) ++ [pushed]
  /\ previousHash pushed = hash (Blockchain.last (Store.read sampleHeap sampleStoreLedger))
  /\ hash pushed = Some (Block_calculateHash sampleHashEngine pushed)
  /\ isChainValid sampleHashEngine (Store.read h' blockchain') = true.
Proof.
  apply (addBlockTo_preserves_isChainValid sampleHashEngine sampleHeap sampleStoreLedger 2%nat).
  - unfold Store.refs, sampleStoreLedger. cbn [Store.first Store.rest].
    intros H. apply elem_of_cons in H as [H|H]; [discriminate H|].
    apply elem_of_cons in H as [H|H]; [discriminate H|].
    apply elem_of_nil in H. exact H.
  - vm_compute. reflexivity.
Defined.

(** The block has to be new: handing [addBlockTo] the block the ledger holds
    at index 1 rewrites that block's [previousHash] in place, and the chain
    test, true before, is false after. *)
Lemma addBlockTo_held_block_breaks_chain :
  isChainValid sampleHashEngine (Store.read sampleHeap sampleStoreLedger) = true
  /\ isChainValid sampleHashEngine
       (Store.read (Store.addBlockTo sampleHashEngine sampleHeap sampleStoreLedger 1%nat).1
                   (Store.addBlockTo sampleHashEngine sampleHeap sampleStoreLedger 1%nat).2)
     = false.
Proof. split; vm_compute; reflexivity. Qed.

(** ** Validation of a block *)

(** C7: a block whose [previousHash] is the sentinel of 64 zero characters is
    [Success] under [isValid()], whatever its timestamp, id, hash or other
    fields, and whatever the ledger holds: the previous block is not looked
    up and no check runs. *)
Theorem genesis_isValid_Success :
  forall (HashEngine : Z -> option string -> Z -> list Transaction -> string)
         (blockchain : Blockchain.t) (block : Block),
    previousHash block = Some (repeat0 64) ->
    Block_isValid HashEngine blockchain block = Return (Success true).
Proof.
  intros HashEngine bc block Hprev. unfold Block_isValid, isGenesis.
  rewrite bool_decide_eq_true_2 by exact Hprev. reflexivity.
Qed.

Lemma genesis_isValid_Success_witness :
  Block_isValid sampleHashEngine sampleLedger2
    (mkBlock None (Some (repeat0 64)) [sampleFunding] 5 9 (-1) (Some "tampered"))
  = Return (Success true).
Proof.
  apply (genesis_isValid_Success sampleHashEngine sampleLedger2). reflexivity.
Defined.

(** A block that is not a genesis block does reach the lookup: when no block
    of the ledger carries the hash it points at, the first three checks run
    and, if they pass, reading the previous block throws. *)
Lemma nonGenesis_isValid_looks_up :
  forall (HashEngine : Z -> option string -> Z -> list Transaction -> string)
         (blockchain : Blockchain.t) (block : Block),
    isGenesis block = false ->
    Blockchain.lookUp blockchain (previousHash block) = None ->
    checkLength 64 block = true ->
    checkNoTampering HashEngine block = true ->
    checkDifficulty (difficulty block) block = true ->
    Block_isValid HashEngine blockchain block
    = Throw (TypeError "Cannot read properties of undefined").
Proof.
  intros HashEngine bc block Hg Hl H1 H2 H3. unfold Block_isValid.
  rewrite Hg, Hl. simpl. rewrite H1. simpl. rewrite H2. simpl. rewrite H3. reflexivity.
Qed.

(** ** Proof of work *)

(** A string starts with [n] zeros exactly when it has at least [n] leading
    zeros. *)
Lemma startsWith_repeat0 (n : nat) (h : string) :
  startsWith h (repeat0 n) = true <-> (n <= leadingZeros h)%nat.
Proof.
  revert h. induction n as [|n IH]; intros h.
  - simpl. split; [lia|reflexivity].
  - destruct h as [|c h]; [simpl; split; [discriminate|lia]|].
    change (startsWith (String c h) (repeat0 (S n)))
      with (if Ascii.eqb "0" c then startsWith h (repeat0 n) else false).
    destruct (Ascii.eqb_spec "0" c) as [<-|Hc].
    + rewrite IH. simpl. lia.
    + assert (Hz : leadingZeros (String c h) = 0%nat).
      { destruct c as [[] [] [] [] [] [] [] []]; try reflexivity.
        contradiction Hc; reflexivity. }
      rewrite Hz. split; [discriminate|lia].
Qed.

Section Mining.

Variable HashEngine : Z -> option string -> Z -> list Transaction -> string.
Variable block : Block.
Variable hashPrefix : string.

(** One attempt of the search. *)
Lemma proofOfWork_step (fuel : nat) (start : Z) :
  proofOfWork HashEngine (S fuel) block hashPrefix start
  = if qualifies HashEngine block hashPrefix start
    then Some (calculateHash HashEngine (set_nonce start block))
    else proofOfWork HashEngine fuel block hashPrefix (start + 1).
Proof. reflexivity. Qed.

(** The search returns the first nonce that qualifies, once the fuel covers
    the attempts before it. *)
Lemma proofOfWork_first (k : nat) :
  forall (fuel : nat) (start : Z),
    (k < fuel)%nat ->
    qualifies HashEngine block hashPrefix (start + Z.of_nat k) = true ->
    (forall j : nat, (j < k)%nat ->
       qualifies HashEngine block hashPrefix (start + Z.of_nat j) = false) ->
    proofOfWork HashEngine fuel block hashPrefix start
    = Some (calculateHash HashEngine (set_nonce (start + Z.of_nat k) block)).
Proof.
  induction k as [|k IH]; intros fuel start Hfuel Hq Hbefore;
    (destruct fuel as [|fuel]; [lia|]); rewrite proofOfWork_step.
  - replace (start + Z.of_nat 0) with start in * by lia.
    rewrite Hq. reflexivity.
  - assert (H0 := Hbefore 0%nat ltac:(lia)).
    replace (start + Z.of_nat 0) with start in H0 by lia.
    rewrite H0, (IH fuel (start + 1)).
    + do 3 f_equal. lia.
    + lia.
    + rewrite <- Hq. f_equal. lia.
    + intros j Hj. rewrite <- (Hbefore (S j)) by lia. f_equal. lia.
Qed.

(** Below any nonce that qualifies there is a first one. *)
Lemma first_qualifying (k : nat) :
  forall start : Z,
    qualifies HashEngine block hashPrefix (start + Z.of_nat k) = true ->
    exists k0 : nat,
      (k0 <= k)%nat
      /\ qualifies HashEngine block hashPrefix (start + Z.of_nat k0) = true
      /\ forall j : nat, (j < k0)%nat ->
           qualifies HashEngine block hashPrefix (start + Z.of_nat j) = false.
Proof.
  induction k as [|k IH]; intros start Hq.
  - exists 0%nat. repeat split; [lia|exact Hq|intros j Hj; lia].
  - destruct (qualifies HashEngine block hashPrefix start) eqn:E.
    + exists 0%nat. repeat split; [lia| |intros j Hj; lia].
      rewrite <- E. f_equal. lia.
    + destruct (IH (start + 1)) as (k0 & Hle & Hq0 & Hbefore).
      { rewrite <- Hq. f_equal. lia. }
      exists (S k0). repeat split; [lia| |].
      * rewrite <- Hq0. f_equal. lia.
      * intros [|j] Hj.
        -- rewrite <- E. f_equal. lia.
        -- rewrite <- (Hbefore j) by lia. f_equal. lia.
Qed.

(** The search terminates as soon as some nonce from the start on
    qualifies: with enough fuel it returns the block at the least such
    nonce. *)
Lemma proofOfWork_terminates (start n : Z) :
  start <= n ->
  qualifies HashEngine block hashPrefix n = true ->
  exists (m : Z) (fuel0 : nat),
    start <= m <= n
    /\ qualifies HashEngine block hashPrefix m = true
    /\ (forall j : Z, start <= j < m -> qualifies HashEngine block hashPrefix j = false)
    /\ forall fuel : nat, (fuel0 <= fuel)%nat ->
         proofOfWork HashEngine fuel block hashPrefix start
         = Some (calculateHash HashEngine (set_nonce m block)).
Proof.
  intros Hle Hq.
  destruct (first_qualifying (Z.to_nat (n - start)) start) as (k0 & Hk0 & Hq0 & Hbefore).
  { rewrite <- Hq. f_equal. lia. }
  exists (start + Z.of_nat k0), (S k0). repeat split; [lia|lia|exact Hq0| |].
  - intros j Hj. rewrite <- (Hbefore (Z.to_nat (j - start))) by lia. f_equal. lia.
  - intros fuel Hfuel. apply proofOfWork_first; [lia|exact Hq0|exact Hbefore].
Qed.

(** Without a nonce that qualifies from the start on, the search runs out of
    any fuel. *)
Lemma proofOfWork_never (fuel : nat) :
  forall start : Z,
    (forall n : Z, start <= n -> qualifies HashEngine block hashPrefix n = false) ->
    proofOfWork HashEngine fuel block hashPrefix start = None.
Proof.
  induction fuel as [|fuel IH]; intros start Hnone; [reflexivity|].
  rewrite proofOfWork_step, (Hnone start) by lia.
  apply IH. intros n Hn. apply Hnone. lia.
Qed.

End Mining.

Lemma set_nonce_same (b : Block) : set_nonce (nonce b) b = b.
Proof. destruct b; reflexivity. Qed.

(** C4, as amended: mining a block returns, as soon as some nonce from the
    starting nonce on satisfies the difficulty predicate, the block at the
    least such nonce, and its hash starts with at least [difficulty] zero
    characters (a hash with more zeros than asked also satisfies the prefix
    test).  When no nonce from the starting nonce on qualifies, the search
    does not end: no amount of fuel gives a block.  With difficulty 0 the
    first attempt succeeds, at the starting nonce. *)
Theorem mining_finds_least_qualifying_nonce :
  forall (HashEngine : Z -> option string -> Z -> list Transaction -> string)
         (block : Block),
    (forall n : Z,
       nonce block <= n ->
       qualifies HashEngine block (padStart0 (difficulty block)) n = true ->
       exists (mined : Block) (h : string) (fuel0 : nat),
         (forall fuel : nat, (fuel0 <= fuel)%nat ->
            Block_mine HashEngine fuel block = Some mined)
         /\ mined = calculateHash HashEngine (set_nonce (nonce mined) block)
         /\ hash mined = Some h
         /\ (Z.to_nat (difficulty block) <= leadingZeros h)%nat
         /\ nonce block <= nonce mined <= n
         /\ (forall j : Z, nonce block <= j < nonce mined ->
               qualifies HashEngine block (padStart0 (difficulty block)) j = false))
    /\ ((forall n : Z,
          nonce block <= n ->
          qualifies HashEngine block (padStart0 (difficulty block)) n = false) ->
        forall fuel : nat, Block_mine HashEngine fuel block = None)
    /\ (difficulty block <= 0 ->
        forall fuel : nat,
          Block_mine HashEngine (S fuel) block = Some (calculateHash HashEngine block)).
Proof.
  intros HashEngine block. split; [|split].
  - intros n Hn Hq.
    destruct (proofOfWork_terminates HashEngine block _ (nonce block) n Hn Hq)
      as (m & fuel0 & Hm & Hqm & Hleast & Hrun).
    exists (calculateHash HashEngine (set_nonce m block)),
           (Block_calculateHash HashEngine (set_nonce m block)), fuel0.
    repeat split; try (simpl; lia).
    + exact Hrun.
    + apply startsWith_repeat0. exact Hqm.
    + exact Hleast.
  - intros Hnone fuel. unfold Block_mine. apply proofOfWork_never, Hnone.
  - intros Hd fuel. unfold Block_mine. rewrite proofOfWork_step.
    unfold padStart0. replace (Z.to_nat (difficulty block)) with 0%nat by lia.
    simpl. rewrite set_nonce_same. reflexivity.
Qed.

Lemma mining_finds_least_qualifying_nonce_witness :
  (exists (mined : Block) (h : string) (fuel0 : nat),
     (forall fuel : nat, (fuel0 <= fuel)%nat ->
        Block_mine sampleHashEngine fuel (mkBlock None None [] 1 0 16 None) = Some mined)
     /\ mined = calculateHash sampleHashEngine
                  (set_nonce (nonce mined) (mkBlock None None [] 1 0 16 None))
     /\ hash mined = Some h
     /\ (1 <= leadingZeros h)%nat
     /\ 0 <= nonce mined <= 9
     /\ (forall j : Z, 0 <= j < nonce mined ->
           qualifies sampleHashEngine (mkBlock None None [] 1 0 16 None) "0" j = false))
  /\ (forall fuel : nat,
        Block_mine (fun _ _ _ _ => "f") fuel (mkBlock None None [] 1 0 16 None) = None)
  /\ (forall fuel : nat,
        Block_mine sampleHashEngine (S fuel) (mkBlock None None [] 0 7 16 None)
        = Some (calculateHash sampleHashEngine (mkBlock None None [] 0 7 16 None))).
Proof.
  split; [|split].
  - apply (proj1 (mining_finds_least_qualifying_nonce sampleHashEngine
                    (mkBlock None None [] 1 0 16 None)) 9).
    + simpl. lia.
    + vm_compute. reflexivity.
  - apply (proj1 (proj2 (mining_finds_least_qualifying_nonce (fun _ _ _ _ => "f")
                           (mkBlock None None [] 1 0 16 None)))).
    intros n Hn. reflexivity.
  - apply (proj2 (proj2 (mining_finds_least_qualifying_nonce sampleHashEngine
                           (mkBlock None None [] 0 7 16 None)))).
    simpl. lia.
Defined.

(** C4 as stated fails: the block created at instant 4 with the constructor's
    difficulty 2 is mined at nonce 270, and the hash found has three leading
    zero characters, not exactly two. *)
Lemma mining_hash_exceeds_difficulty :
  exists (mined : Block) (h : string),
    Block_mine sampleHashEngine 271 (mkBlock None None [] 2 0 4 None) = Some mined
    /\ hash mined = Some h
    /\ leadingZeros h = 3%nat
    /\ leadingZeros h <> Z.to_nat (difficulty mined).
Proof.
  eexists. eexists. split; [vm_compute; reflexivity|].
  split; [reflexivity|]. split; [vm_compute; reflexivity|].
  vm_compute. discriminate.
Qed.

(** Nor does every search end: under a digest that never starts with a zero,
    mining at difficulty 1 runs out of any fuel. *)
Lemma mining_may_not_terminate :
  forall (fuel : nat) (block : Block),
    difficulty block = 1 ->
    Block_mine (fun _ _ _ _ => "f") fuel block = None.
Proof.
  intros fuel block Hd. unfold Block_mine. rewrite Hd.
  generalize (nonce block). induction fuel as [|fuel IH]; intros start; [reflexivity|].
  rewrite proofOfWork_step. unfold qualifies. simpl. apply IH.
Qed.

(** ** Mining the pending transactions *)




(** ** Balances *)

Lemma fold_left_ramda_concat {A : Type} (rest : list (list A)) (x : list A) :
  fold_left ramda_concat rest x = x ++ List.concat rest.
Proof.
  revert x. induction rest as [|y rest IH]; intros x; simpl.
  - rewrite app_nil_r. reflexivity.
  - rewrite IH. unfold ramda_concat. rewrite app_assoc. reflexivity.
Qed.

(** The unseeded [reduce(concat)]: the arrays laid end to end, and no value
    for the empty array of arrays. *)
Lemma Array_reduce1_ramda_concat {A : Type} (l : list (list A)) :
  Array_reduce1 ramda_concat l
  = match l with
    | [] => Throw (TypeError "Reduce of empty array with no initial value")
    | _ :: _ => Return (List.concat l)
    end.
Proof.
  destruct l as [|x rest]; [reflexivity|].
  simpl. rewrite fold_left_ramda_concat. reflexivity.
Qed.

Lemma filter_Permutation_bool {A : Type} (p : A -> bool) (l l' : list A) :
  l ≡ₚ l' -> List.filter p l ≡ₚ List.filter p l'.
Proof.
  induction 1 as [|x l l' _ IH|x y l|l l' l'' _ IH1 _ IH2]; simpl.
  - reflexivity.
  - destruct (p x); [constructor|]; exact IH.
  - destruct (p x), (p y); try reflexivity. apply perm_swap.
  - etransitivity; eassumption.
Qed.

Lemma concat_Permutation_outer {A : Type} (l l' : list (list A)) :
  l ≡ₚ l' -> List.concat l ≡ₚ List.concat l'.
Proof.
  induction 1 as [|x l l' _ IH|x y l|l l' l'' _ IH1 _ IH2]; simpl.
  - reflexivity.
  - apply Permutation_app_head, IH.
  - rewrite !app_assoc. apply Permutation_app_tail, Permutation_app_comm.
  - etransitivity; eassumption.
Qed.

Lemma concat_Permutation_inner {A : Type} (l l' : list (list A)) :
  Forall2 (≡ₚ) l l' -> List.concat l ≡ₚ List.concat l'.
Proof.
  induction 1 as [|x y l l' Hxy _ IH]; simpl; [reflexivity|].
  apply Permutation_app; assumption.
Qed.

Lemma signedAmounts_Permutation (address : Address) (txs txs' : list Transaction) :
  txs ≡ₚ txs' -> signedAmounts address txs ≡ₚ signedAmounts address txs'.
Proof.
  intros H. unfold signedAmounts, flatBiMap, multiMap, split.
  apply Permutation_app; apply Permutation_map, filter_Permutation_bool, H.
Qed.

(** Reordering keeps the blocks that are not genesis blocks, up to order. *)
Lemma transactionsPerBlock_reordered (bc bc' : Blockchain.t) :
  reordered bc bc' ->
  exists shuffled : list (list Transaction),
    transactionsPerBlock bc ≡ₚ shuffled
    /\ Forall2 (≡ₚ) shuffled (transactionsPerBlock bc').
Proof.
  intros (shuffled & Hperm & Hsame). unfold transactionsPerBlock.
  exists (map pendingTransactions (List.filter (fun b => negb (isGenesis b)) shuffled)).
  split.
  - apply Permutation_map, filter_Permutation_bool, Hperm.
  - clear Hperm. induction Hsame as [|b b' l l' Hb _ IH]; simpl; [constructor|].
    destruct Hb as (_ & Hprev & _ & _ & _ & _ & Htxs).
    assert (Hg : isGenesis b = isGenesis b') by (unfold isGenesis; rewrite Hprev; reflexivity).
    rewrite Hg. destruct (isGenesis b'); simpl;
      [exact IH|constructor; [exact Htxs|exact IH]].
Qed.

(** An addition that is commutative and associative, as the Money monoid of
    the specification, lets two amounts be added to a total in either
    order. *)
Lemma commutative_monoid_swap (Money_add : Money -> Money -> Money) :
  (forall a b : Money, Money_add a b = Money_add b a) ->
  (forall a b c : Money, Money_add (Money_add a b) c = Money_add a (Money_add b c)) ->
  forall total m1 m2 : Money,
    Money_add (Money_add total m1) m2 = Money_add (Money_add total m2) m1.
Proof.
  intros Hcomm Hassoc total m1 m2.
  rewrite !Hassoc. f_equal. apply Hcomm.
Qed.

Section Balance.

Variable Money_add : Money -> Money -> Money.
Variable Money_nothing : Money.

(** The order in which two amounts are added to a running total does not
    matter.  Every commutative and associative addition has this property,
    and so has an addition that keeps the currency of the running total. *)
Hypothesis Money_add_swap :
  forall total m1 m2 : Money,
    Money_add (Money_add total m1) m2 = Money_add (Money_add total m2) m1.

Lemma fold_left_Money_add_Permutation (l l' : list Money) :
  l ≡ₚ l' ->
  forall total : Money, fold_left Money_add l total = fold_left Money_add l' total.
Proof.
  induction 1 as [|x l l' _ IH|x y l|l l' l'' _ IH1 _ IH2]; intros total; simpl.
  - reflexivity.
  - apply IH.
  - rewrite Money_add_swap. reflexivity.
  - rewrite IH1. apply IH2.
Qed.

(** The fold that visits the transactions one by one adds the same amounts
    as the fold over the two groups. *)
Lemma applyTransaction_fold (address : Address) (txs : list Transaction) :
  forall total : Money,
    fold_left (applyTransaction Money_add address) txs total
    = fold_left Money_add (signedAmounts address txs) total.
Proof.
  unfold signedAmounts, flatBiMap, multiMap, split.
  induction txs as [|tx txs IH]; intros total; [reflexivity|].
  simpl. rewrite IH. unfold applyTransaction.
  destruct (bool_decide (fromAddress tx = address)),
           (bool_decide (toAddress tx = address)); simpl; try reflexivity.
  - destruct tx as [from to [cur amt]]. simpl.
    symmetry.
    rewrite (fold_left_Money_add_Permutation _
               (mkMoney cur amt
                :: map (fun tx => mkMoney (currency (money tx)) (- amount (money tx)))
                     (List.filter (fun tx => bool_decide (fromAddress tx = address)) txs)
                ++ map (fun tx => mkMoney (currency (money tx)) (amount (money tx)))
                     (List.filter (fun tx => bool_decide (toAddress tx = address)) txs)));
      [reflexivity|].
    symmetry. apply Permutation_middle.
  - destruct tx as [from to [cur amt]]. simpl.
    symmetry.
    rewrite (fold_left_Money_add_Permutation _
               (mkMoney cur amt
                :: map (fun tx => mkMoney (currency (money tx)) (- amount (money tx)))
                     (List.filter (fun tx => bool_decide (fromAddress tx = address)) txs)
                ++ map (fun tx => mkMoney (currency (money tx)) (amount (money tx)))
                     (List.filter (fun tx => bool_decide (toAddress tx = address)) txs)));
      [reflexivity|].
    symmetry. apply Permutation_middle.
Qed.

(** On a ledger with a block that is not a genesis block, the balance is
    the fold over the transactions. *)
Lemma calculateBalanceOfAddress_fold (bc : Blockchain.t) (address : Address) :
  transactionsPerBlock bc <> [] ->
  calculateBalanceOfAddress Money_add Money_nothing bc address
  = Return (balanceOf_fold Money_add Money_nothing bc address).
Proof.
  intros Hne. unfold calculateBalanceOfAddress, balanceOf_fold.
  rewrite Array_reduce1_ramda_concat.
  destruct (transactionsPerBlock bc) as [|x rest] eqn:E; [contradiction|].
  change (Return (Array_reduce Money_add Money_nothing
                    (signedAmounts address (List.concat (x :: rest))))
          = Return (fold_left (applyTransaction Money_add address)
                      (List.concat (x :: rest)) Money_nothing)).
  rewrite applyTransaction_fold. reflexivity.
Qed.

Lemma calculateBalanceOfAddress_reordered (bc bc' : Blockchain.t) (address : Address) :
  reordered bc bc' ->
  calculateBalanceOfAddress Money_add Money_nothing bc address
  = calculateBalanceOfAddress Money_add Money_nothing bc' address.
Proof.
  intros Hre. destruct (transactionsPerBlock_reordered bc bc' Hre) as (sh & Hperm & Hsame).
  unfold calculateBalanceOfAddress. rewrite !Array_reduce1_ramda_concat.
  assert (Hconcat : List.concat (transactionsPerBlock bc)
                    ≡ₚ List.concat (transactionsPerBlock bc')).
  { etransitivity; [apply concat_Permutation_outer, Hperm|].
    apply concat_Permutation_inner, Hsame. }
  assert (Hlen : List.length (transactionsPerBlock bc)
                 = List.length (transactionsPerBlock bc')).
  { rewrite (Permutation_length Hperm). eapply Forall2_length, Hsame. }
  destruct (transactionsPerBlock bc) as [|x l], (transactionsPerBlock bc') as [|x' l'];
    try discriminate Hlen; [reflexivity|].
  change (Return (Array_reduce Money_add Money_nothing
                    (signedAmounts address (List.concat (x :: l))))
          = Return (Array_reduce Money_add Money_nothing
                      (signedAmounts address (List.concat (x' :: l'))))).
  f_equal. apply fold_left_Money_add_Permutation, signedAmounts_Permutation, Hconcat.
Qed.

End Balance.


Lemma Zsum_app (l l' : list Z) : Zsum (l ++ l') = Zsum l + Zsum l'.
Proof. unfold Zsum. induction l as [|x l IH]; simpl; [reflexivity|]. rewrite IH. lia. Qed.

(** The amounts of the two groups add up to the net amounts of the
    transactions. *)
Lemma Zsum_signedAmounts (address : Address) (txs : list Transaction) :
  Zsum (map amount (signedAmounts address txs)) = Zsum (map (netAmount address) txs).
Proof.
  unfold signedAmounts, flatBiMap, multiMap, split.
  rewrite map_app, Zsum_app.
  induction txs as [|tx txs IH]; [reflexivity|].
  cbn [List.filter map]. unfold netAmount at 1.
  destruct (bool_decide (fromAddress tx = address)),
           (bool_decide (toAddress tx = address));
    unfold Zsum in *; cbn [map fold_right amount] in *; lia.
Qed.

(** A transaction whose sender is its recipient adds nothing to any
    balance. *)
Lemma netAmount_self_transfer (address : Address) (tx : Transaction) :
  fromAddress tx = toAddress tx -> netAmount address tx = 0.
Proof. intros H. unfold netAmount. rewrite H. lia. Qed.

Section BalanceAmounts.

Variable Money_add : Money -> Money -> Money.
Variable Money_nothing : Money.

(** Money adds amounts, and the zero Money has amount zero. *)
Hypothesis amount_Money_add :
  forall m1 m2 : Money, amount (Money_add m1 m2) = amount m1 + amount m2.
Hypothesis amount_Money_nothing : amount Money_nothing = 0.

Lemma amount_fold_left (l : list Money) :
  forall total : Money,
    amount (fold_left Money_add l total) = amount total + Zsum (map amount l).
Proof.
  induction l as [|m l IH]; intros total; simpl; [lia|].
  rewrite IH, amount_Money_add. lia.
Qed.

(** On a ledger with a block that is not a genesis block, the amount of the
    balance is the sum of the net amounts of the transactions: plus the amount
    when the recipient is the address, minus the amount when the sender is. *)
Lemma calculateBalanceOfAddress_amount (bc : Blockchain.t) (address : Address) :
  transactionsPerBlock bc <> [] ->
  exists balance : Money,
    calculateBalanceOfAddress Money_add Money_nothing bc address = Return balance
    /\ amount balance
       = Zsum (map (netAmount address) (List.concat (transactionsPerBlock bc))).
Proof.
  intros Hne. unfold calculateBalanceOfAddress. rewrite Array_reduce1_ramda_concat.
  destruct (transactionsPerBlock bc) as [|x rest]; [contradiction|].
  eexists. split; [reflexivity|].
  unfold Array_reduce. fold (signedAmounts address (List.concat (x :: rest))).
  rewrite amount_fold_left, amount_Money_nothing, Zsum_signedAmounts. lia.
Qed.

End BalanceAmounts.

(** C9: on a ledger all of whose blocks are genesis blocks (a ledger that
    holds its genesis block only), [calculateBalanceOfAddress] returns no
    balance: the unseeded [reduce(concat)] over the empty array of per-block
    transaction arrays throws, for every address and in both revisions: the
    one on Money, and the earlier one on numbers, whatever its numbers,
    blocks and transactions are. *)
Theorem calculateBalanceOfAddress_genesis_only_throws :
  (forall (Money_add : Money -> Money -> Money) (Money_nothing : Money)
          (blockchain : Blockchain.t) (address : Address),
     Forall (fun b => isGenesis b = true) (Blockchain.blocks blockchain) ->
     calculateBalanceOfAddress Money_add Money_nothing blockchain address
     = Throw (TypeError "Reduce of empty array with no initial value"))
  /\ (forall (Number : Type) (add : Number -> Number -> Number) (negate : Number -> Number)
             (zero : Number) (EarlierBlock EarlierTransaction : Type)
             (isGenesis : EarlierBlock -> bool)
             (pendingTransactions : EarlierBlock -> list EarlierTransaction)
             (fromAddress toAddress : EarlierTransaction -> Address)
             (amount : EarlierTransaction -> Number)
             (blocks : list EarlierBlock) (address : Address),
        Forall (fun b => isGenesis b = true) blocks ->
        Earlier.calculateBalanceOfAddress add negate zero isGenesis pendingTransactions
          fromAddress toAddress amount blocks address
        = Throw (TypeError "Reduce of empty array with no initial value")).
Proof.
  split.
  - intros Money_add Money_nothing bc address Hall.
    assert (Hempty : transactionsPerBlock bc = []).
    { unfold transactionsPerBlock.
      induction Hall as [|b l Hb _ IH]; [reflexivity|].
      simpl. rewrite Hb. exact IH. }
    unfold calculateBalanceOfAddress. rewrite Hempty. reflexivity.
  - intros Number add negate zero EarlierBlock EarlierTransaction isGenesis'
      pendingTransactions' fromAddress' toAddress' amount' blocks address Hall.
    assert (Hempty : List.filter (fun b => negb (isGenesis' b)) blocks = []).
    { induction Hall as [|b l Hb _ IH]; [reflexivity|].
      simpl. rewrite Hb. exact IH. }
    unfold Earlier.calculateBalanceOfAddress. rewrite Hempty. reflexivity.
Qed.

Lemma calculateBalanceOfAddress_genesis_only_throws_witness :
  calculateBalanceOfAddress sampleMoney_add sampleMoney_nothing sampleLedger (Some "bob")
  = Throw (TypeError "Reduce of empty array with no initial value")
  /\ Earlier.calculateBalanceOfAddress Z.add Z.opp 0 isGenesis pendingTransactions
       fromAddress toAddress (fun tx => amount (money tx))
       (Blockchain.blocks sampleLedger) (Some "bob")
     = Throw (TypeError "Reduce of empty array with no initial value").
Proof.
  split.
  - apply (proj1 calculateBalanceOfAddress_genesis_only_throws sampleMoney_add
             sampleMoney_nothing sampleLedger (Some "bob")).
    repeat constructor.
  - apply (proj2 calculateBalanceOfAddress_genesis_only_throws Z Z.add Z.opp 0
             Block Transaction isGenesis pendingTransactions fromAddress toAddress
             (fun tx => amount (money tx)) (Blockchain.blocks sampleLedger) (Some "bob")).
    repeat constructor.
Defined.

(** C3 at the ledger that holds its genesis block only: the fold over the
    transactions of the blocks that are not genesis blocks is the zero Money,
    while [calculateBalanceOfAddress] throws. *)
Theorem calculateBalanceOfAddress_fresh_ledger :
  forall (Money_add : Money -> Money -> Money) (Money_nothing : Money) (address : Address),
    balanceOf_fold Money_add Money_nothing sampleLedger address = Money_nothing
    /\ calculateBalanceOfAddress Money_add Money_nothing sampleLedger address
       = Throw (TypeError "Reduce of empty array with no initial value").
Proof. intros Money_add Money_nothing address. split; reflexivity. Qed.

(** C8: the balance of an address is the same on two ledgers that hold the
    same blocks in any order, each with its transactions in any order, be the
    outcome a balance or the throw on a ledger of genesis blocks only. *)
Theorem calculateBalanceOfAddress_order_invariant :
  forall (Money_add : Money -> Money -> Money) (Money_nothing : Money),
    (forall total m1 m2 : Money,
       Money_add (Money_add total m1) m2 = Money_add (Money_add total m2) m1) ->
    forall (ledger ledger' : Blockchain.t) (address : Address),
      reordered ledger ledger' ->
      calculateBalanceOfAddress Money_add Money_nothing ledger address
      = calculateBalanceOfAddress Money_add Money_nothing ledger' address.
Proof.
  intros Money_add Money_nothing Hswap ledger ledger' address Hre.
  apply calculateBalanceOfAddress_reordered; assumption.
Qed.

Lemma calculateBalanceOfAddress_order_invariant_witness :
  calculateBalanceOfAddress sampleMoney_add sampleMoney_nothing sampleOrderedLedger (Some "bob")
  = calculateBalanceOfAddress sampleMoney_add sampleMoney_nothing sampleShuffledLedger
      (Some "bob").
Proof.
  apply (calculateBalanceOfAddress_order_invariant sampleMoney_add sampleMoney_nothing).
  - intros total m1 m2. unfold sampleMoney_add. simpl. f_equal. lia.
  - exists [ mkBlock (Some 2) (Some "bb") [sampleTransfer2; sampleTransfer3] 2 0 3000 (Some "cc");
             sampleGenesis;
             mkBlock (Some 1) (Some "aa") [sampleFunding; sampleTransfer1] 2 0 2000 (Some "bb") ].
    split.
    + eapply perm_trans; [apply perm_skip, perm_swap|apply perm_swap].
    + repeat constructor.
Defined.

(** ** The validation pipeline *)

Lemma flatMap_Failure {E A B : Type} (error : E) (g : A -> Validation E B) :
  flatMap g (Failure error) = Failure error.
Proof. reflexivity. Qed.

Lemma flatMap_Success {E A B : Type} (a : A) (g : A -> Validation E B) :
  flatMap g (Success a) = g a.
Proof. reflexivity. Qed.

(** [flatMap] as the listing writes it: without the short-circuit flag it is
    [this.map(f).get()], and [get()] does not throw there. *)
Lemma flatMap_map_get {E A B : Type} (f : A -> Validation E B) (this : Validation E A) :
  SHORT_CIRCUIT this = false ->
  Validation_get (Validation_map f this) = Return (flatMap f this).
Proof. destruct this; [reflexivity|discriminate]. Qed.

(** Once a [Failure], always that [Failure]: no later check is applied. *)
Lemma fold_flatMap_Failure {E A : Type} (checks : list (A -> Validation E A)) (error : E) :
  fold_left (fun acc check => flatMap check acc) checks (Failure error) = Failure error.
Proof. induction checks as [|c checks IH]; [reflexivity|]. simpl. exact IH. Qed.

Lemma runPipeline_app {E A : Type} (pre post : list (A -> Validation E A)) (entity : A) :
  runPipeline (pre ++ post) entity
  = fold_left (fun acc check => flatMap check acc) post (runPipeline pre entity).
Proof. unfold runPipeline. apply fold_left_app. Qed.

(** The first check that fails decides the result. *)
Lemma runPipeline_first_Failure {E A : Type} (pre post : list (A -> Validation E A))
    (check : A -> Validation E A) (entity passed : A) (error : E) :
  runPipeline pre entity = Success passed ->
  check passed = Failure error ->
  runPipeline (pre ++ check :: post) entity = Failure error.
Proof.
  intros Hpre Hcheck. rewrite runPipeline_app, Hpre. simpl. rewrite Hcheck.
  apply fold_flatMap_Failure.
Qed.

(** Checks that hand the entity on when they succeed, as the block checks of
    the listing do, end in [Success] of the entity. *)
Lemma runPipeline_all_Success {E A : Type} (checks : list (A -> Validation E A)) (entity : A) :
  Forall (fun check => check entity = Success entity) checks ->
  runPipeline checks entity = Success entity.
Proof.
  unfold runPipeline, Validation_of.
  induction 1 as [|c checks Hc _ IH]; [reflexivity|].
  simpl. rewrite Hc. exact IH.
Qed.

(** [composeM] runs the pipeline of its arguments read from right to left,
    [Validation.of] being the rightmost. *)
Lemma composeM_runPipeline {E A : Type} (checks : list (A -> Validation E A)) (x : A) :
  composeM (rev checks ++ [Validation_of]) x = runPipeline checks x.
Proof.
  unfold composeM. rewrite rev_app_distr, rev_involutive. reflexivity.
Qed.

(** The block of the listing: tampering is checked first, then the index,
    then the timestamps, and a block that passes comes back in [Success]. *)
Lemma Listing565_isValid_pipeline
    (HashEngine : Z -> Z -> string -> Z -> list string -> string)
    (lookUp : string -> option Listing565.Block) (this previous : Listing565.Block) :
  lookUp (Listing565.previousHash this) = Some previous ->
  Listing565.isValid HashEngine lookUp this
  = Return (runPipeline
              [ Listing565.checkTampering HashEngine;
                Listing565.checkIndex (Listing565.index previous);
                Listing565.checkTimestamps (Listing565.timestamp previous) ] this).
Proof.
  intros Hl. unfold Listing565.isValid. rewrite Hl. reflexivity.
Qed.

(** C5, as amended: a [Failure] is returned unchanged by [flatMap], whatever
    the function; in a pipeline the checks run in order and the first
    [Failure] is the result, whatever checks follow; and when all checks
    succeed the result is the [Success] the last step returns: [Success] of
    the entity for checks that hand their input on, as those of the block
    listing do, and [Success(true)] for [Transaction.isValid], whose last step
    replaces the value. *)
Theorem pipeline_short_circuits :
  (forall (E A B : Type) (error : E) (g : A -> Validation E B),
     flatMap g (Failure error) = Failure error)
  /\ (forall (E A : Type) (pre post : list (A -> Validation E A))
             (check : A -> Validation E A) (entity passed : A) (error : E),
        runPipeline pre entity = Success passed ->
        check passed = Failure error ->
        runPipeline (pre ++ check :: post) entity = Failure error)
  /\ (forall (E A : Type) (checks : list (A -> Validation E A)) (entity : A),
        Forall (fun check => check entity = Success entity) checks ->
        runPipeline checks entity = Success entity)
  /\ (forall (checkSignature checkTampering :
                DomainTransaction.t -> Validation string DomainTransaction.t)
             (tx : DomainTransaction.t),
        (forall error : string,
           checkSignature tx = Failure error ->
           DomainTransaction.isValid checkSignature checkTampering tx = Failure error)
        /\ (forall error : string,
              checkSignature tx = Success tx ->
              checkTampering tx = Failure error ->
              DomainTransaction.isValid checkSignature checkTampering tx = Failure error)
        /\ (checkSignature tx = Success tx ->
            checkTampering tx = Success tx ->
            DomainTransaction.isValid checkSignature checkTampering tx
            = Success (inr true))).
Proof.
  split; [intros; reflexivity|].
  split; [intros E A pre post check entity passed error;
          apply runPipeline_first_Failure|].
  split; [intros E A checks entity; apply runPipeline_all_Success|].
  intros checkSignature checkTampering tx. unfold DomainTransaction.isValid, Validation_of.
  repeat split.
  - intros error H. simpl. rewrite H. reflexivity.
  - intros error H1 H2. simpl. rewrite H1. simpl. rewrite H2. reflexivity.
  - intros H1 H2. simpl. rewrite H1. simpl. rewrite H2. reflexivity.
Qed.

Lemma pipeline_short_circuits_witness :
  runPipeline
    ([fun n : Z => Success n]
     ++ (fun n : Z => if n <? 10 then Success n else Failure "too large")
     :: [fun _ : Z => Failure "never reached"]) 12
  = Failure "too large".
Proof.
  apply (proj1 (proj2 pipeline_short_circuits) string Z
           [fun n : Z => Success n] [fun _ : Z => Failure "never reached"]
           (fun n : Z => if n <? 10 then Success n else Failure "too large") 12 12
           "too large").
  - reflexivity.
  - reflexivity.
Defined.

(** C5 as stated fails on [Transaction.isValid]: for the reward transaction
    [sampleReward] and checks that succeed on it, the pipeline returns
    [Success(true)], and not [Success] of the transaction. *)
Lemma Transaction_isValid_returns_true :
  DomainTransaction.isValid (fun tx => Success tx) (fun tx => Success tx) sampleReward
  = Success (inr true)
  /\ DomainTransaction.isValid (fun tx => Success tx) (fun tx => Success tx) sampleReward
     <> Success (inl sampleReward).
Proof. split; [reflexivity|discriminate]. Qed.

(** * Further properties of the code *)

(** ** Chains *)

Section ChainExtras.
Variable HashEngine : Z -> option string -> Z -> list Transaction -> string.

Lemma isChainValid_push (bc : Blockchain.t) (b : Block) :
  isChainValid HashEngine bc = true ->
  hashedAndLinked HashEngine (Blockchain.last bc) b ->
  isChainValid HashEngine (Blockchain.push b bc) = true.
Proof.
  intros Hvalid Hb. rewrite isChainValid_iff in Hvalid |- *.
  intros i previous current Hp Hc.
  apply blockAt_push in Hc as [Hc | [Hi ->]].
  - assert (Hp' : Blockchain.blockAt bc i = Some previous).
    { apply blockAt_push in Hp as [Hp | [Hi _]]; [exact Hp|].
      apply lookup_lt_Some in Hc. unfold Blockchain.size in Hi. lia. }
    exact (Hvalid i previous current Hp' Hc).
  - assert (Hlast : previous = Blockchain.last bc).
    { apply blockAt_push in Hp as [Hp | [Hi' _]]; [|lia].
      unfold Blockchain.size, Blockchain.blocks in Hi. simpl in Hi.
      injection Hi as ->. rewrite blockAt_last in Hp. congruence. }
    subst previous. exact Hb.
Qed.

(** What a search that returns has found. *)
Lemma proofOfWork_Some (fuel : nat) (block : Block) (hashPrefix : string) :
  forall (start : Z) (mined : Block),
    proofOfWork HashEngine fuel block hashPrefix start = Some mined ->
    exists n : Z,
      start <= n
      /\ mined = calculateHash HashEngine (set_nonce n block)
      /\ qualifies HashEngine block hashPrefix n = true
      /\ forall j : Z, start <= j < n -> qualifies HashEngine block hashPrefix j = false.
Proof.
  induction fuel as [|fuel IH]; intros start mined H; [discriminate|].
  rewrite proofOfWork_step in H.
  destruct (qualifies HashEngine block hashPrefix start) eqn:E.
  - injection H as <-. exists start. repeat split; [lia|exact E|intros j Hj; lia].
  - destruct (IH _ _ H) as (n & Hn & Hm & Hq & Hleast).
    exists n. repeat split; [lia|exact Hm|exact Hq|].
    intros j Hj. destruct (decide (j = start)) as [->|Hne]; [exact E|].
    apply Hleast. lia.
Qed.


(** X1: the chain test never reads the content of the block at index 0: a
    ledger whose first block is replaced by any block with the same [hash]
    field gets the same verdict. *)
Theorem isChainValid_ignores_first_block_content (bc : Blockchain.t) (forged : Block) :
  hash forged = hash (Blockchain.first bc) ->
  isChainValid HashEngine (Blockchain.replaceAt 0 forged bc) = isChainValid HashEngine bc.
Proof.
  intros Hh. apply eq_true_iff_eq. rewrite !isChainValid_iff.
  assert (Hzero : forall c : Blockchain.t,
            Blockchain.blockAt c 0 = Some (Blockchain.first c)) by reflexivity.
  assert (Hsucc : forall i, Blockchain.blockAt (Blockchain.replaceAt 0 forged bc) (S i)
                            = Blockchain.blockAt bc (S i)) by reflexivity.
  split; intros H i previous current Hp Hc.
  - destruct i as [|i].
    + rewrite Hzero in Hp. injection Hp as <-.
      destruct (H 0%nat forged current eq_refl Hc) as [H1 H2].
      split; [exact H1|]. rewrite H2. exact Hh.
    + apply (H (S i)); [rewrite Hsucc; exact Hp|rewrite Hsucc; exact Hc].
  - rewrite Hsucc in Hc. destruct i as [|i].
    + rewrite Hzero in Hp. injection Hp as <-.
      destruct (H 0%nat (Blockchain.first bc) current eq_refl Hc) as [H1 H2].
      split; [exact H1|]. rewrite H2. symmetry. exact Hh.
    + apply (H (S i)); [rewrite <- Hsucc; exact Hp|exact Hc].
Qed.

(** X2: the last block can be rewritten at will: with any content, as long as
    it points at the same previous hash and carries its own digest, the chain
    test stays true. *)
Theorem isChainValid_last_block_rewritten (bc : Blockchain.t) (content : Block) :
  Blockchain.rest bc <> [] ->
  isChainValid HashEngine bc = true ->
  isChainValid HashEngine
    (Blockchain.replaceAt (List.length (Blockchain.rest bc))
       (calculateHash HashEngine
          (set_previousHash (previousHash (Blockchain.last bc)) content)) bc) = true.
Proof.
  intros Hrest Hvalid.
  set (n := List.length (Blockchain.rest bc)).
  set (rewritten := calculateHash HashEngine
                      (set_previousHash (previousHash (Blockchain.last bc)) content)).
  assert (Hn : (0 < n)%nat).
  { unfold n. destruct (Blockchain.rest bc); [contradiction|simpl; lia]. }
  rewrite isChainValid_iff in Hvalid |- *.
  intros i previous current Hp Hc.
  destruct (decide (S i = n)) as [Hi|Hi].
  - rewrite <- Hi in Hc, Hp.
    rewrite (blockAt_replaceAt_eq (S i) rewritten (Blockchain.last bc)) in Hc
      by (rewrite Hi; apply blockAt_last).
    injection Hc as <-.
    rewrite blockAt_replaceAt_ne in Hp by lia.
    assert (Hlast : Blockchain.blockAt bc (S i) = Some (Blockchain.last bc))
      by (rewrite Hi; apply blockAt_last).
    destruct (Hvalid i previous (Blockchain.last bc) Hp Hlast) as [_ Hlink].
    split; [reflexivity|exact Hlink].
  - rewrite blockAt_replaceAt_ne in Hc by lia.
    assert (i <> n).
    { intros ->. apply lookup_lt_Some in Hc.
      unfold Blockchain.blocks in Hc. simpl in Hc. fold n in Hc. lia. }
    rewrite blockAt_replaceAt_ne in Hp by lia.
    exact (Hvalid i previous current Hp Hc).
Qed.

(** X3: a block that has a successor is protected by it: on a ledger that
    passes the chain test, replacing the block by one with another [hash]
    field makes the test fail, also when the new block carries its own
    digest. *)
Theorem isChainValid_successor_detects_new_hash
    (bc : Blockchain.t) (i : nat) (b next replacement : Block) :
  Blockchain.blockAt bc i = Some b ->
  Blockchain.blockAt bc (S i) = Some next ->
  isChainValid HashEngine bc = true ->
  hash replacement <> hash b ->
  isChainValid HashEngine (Blockchain.replaceAt i replacement bc) = false.
Proof.
  intros Hb Hnext Hvalid Hne.
  destruct (proj1 (isChainValid_iff HashEngine bc) Hvalid i b next Hb Hnext) as [_ Hlink].
  unfold isChainValid, Array_every.
  apply (forallb_false_lookup _ _ i (next, Some replacement)).
  - rewrite pairs_lookup, (blockAt_replaceAt_eq i replacement b bc Hb).
    rewrite blockAt_replaceAt_ne by lia. rewrite Hnext. reflexivity.
  - unfold pairIsValid. simpl. apply andb_false_iff. right.
    apply bool_decide_eq_false. rewrite Hlink. congruence.
Qed.

(** What a call of [mineBlockTo] that returns has done. *)
Lemma mineBlockTo_Some (fuel : nat) (bc bc' : Blockchain.t) (newBlock mined : Block) :
  mineBlockTo HashEngine fuel bc newBlock = Some (mined, bc') ->
  bc' = Blockchain.push mined bc
  /\ exists n : Z,
       nonce newBlock <= n
       /\ mined = calculateHash HashEngine
                    (set_nonce n (set_previousHash (hash (Blockchain.last bc)) newBlock))
       /\ qualifies HashEngine
            (set_previousHash (hash (Blockchain.last bc)) newBlock) "00" n = true
       /\ forall j : Z, nonce newBlock <= j < n ->
            qualifies HashEngine
              (set_previousHash (hash (Blockchain.last bc)) newBlock) "00" j = false.
Proof.
  unfold mineBlockTo, BlockLogic_mineBlock. intros H.
  destruct (proofOfWork HashEngine fuel
              (set_previousHash (hash (Blockchain.last bc)) newBlock)
              (padStart0 MINING_DIFFICULTY)
              (nonce (set_previousHash (hash (Blockchain.last bc)) newBlock)))
    as [m|] eqn:E; [|discriminate].
  simpl in H. injection H as <- <-. split; [reflexivity|].
  apply proofOfWork_Some in E. exact E.
Qed.

(** X4: [mineBlockTo], when it returns, has pushed the block it returns; the
    block points at the hash of the former last block, carries its own
    digest, which starts with "00", at the least nonce from the block's own
    nonce on that gives such a digest; and a ledger that passed the chain test
    still passes it. *)
Theorem mineBlockTo_pushes_mined_block
    (fuel : nat) (bc bc' : Blockchain.t) (newBlock mined : Block) :
  mineBlockTo HashEngine fuel bc newBlock = Some (mined, bc') ->
  Blockchain.blocks bc' = Blockchain.blocks bc ++ [mined]
  /\ previousHash mined = hash (Blockchain.last bc)
  /\ hash mined = Some (Block_calculateHash HashEngine mined)
  /\ startsWith (Block_calculateHash HashEngine mined) "00" = true
  /\ nonce newBlock <= nonce mined
  /\ (forall j : Z, nonce newBlock <= j < nonce mined ->
        startsWith
          (Block_calculateHash HashEngine
             (set_nonce j (set_previousHash (hash (Blockchain.last bc)) newBlock)))
          "00" = false)
  /\ pendingTransactions mined = pendingTransactions newBlock
  /\ timestamp mined = timestamp newBlock
  /\ (isChainValid HashEngine bc = true -> isChainValid HashEngine bc' = true).
Proof.
  intros H. apply mineBlockTo_Some in H as (-> & n & Hn & -> & Hq & Hleast).
  repeat split; try (simpl; lia); try exact Hq.
  - exact Hleast.
  - intros Hvalid. apply isChainValid_push; [exact Hvalid|]. split; reflexivity.
Qed.

End ChainExtras.

(** ** Mining again *)

Section MiningAgain.
Variable HashEngine : Z -> option string -> Z -> list Transaction -> string.

Lemma proofOfWork_more_fuel (fuel : nat) (block : Block) (hashPrefix : string) :
  forall (start : Z) (mined : Block) (fuel' : nat),
    proofOfWork HashEngine fuel block hashPrefix start = Some mined ->
    (fuel <= fuel')%nat ->
    proofOfWork HashEngine fuel' block hashPrefix start = Some mined.
Proof.
  induction fuel as [|fuel IH]; intros start mined fuel' H Hle; [discriminate|].
  destruct fuel' as [|fuel']; [lia|].
  rewrite proofOfWork_step in H |- *.
  destruct (qualifies HashEngine block hashPrefix start); [exact H|].
  apply IH; [exact H|lia].
Qed.

(** X10: the block [mine()] returns does not depend on the fuel that sufficed,
    and mining it again returns it as it is, at the first attempt: the search
    starts at the block's own nonce, which qualifies. *)
Theorem Block_mine_again (fuel : nat) (block mined : Block) :
  Block_mine HashEngine fuel block = Some mined ->
  (forall fuel' : nat, (fuel <= fuel')%nat -> Block_mine HashEngine fuel' block = Some mined)
  /\ (forall fuel' : nat, Block_mine HashEngine (S fuel') mined = Some mined).
Proof.
  unfold Block_mine. intros H. split.
  - intros fuel' Hle. eapply proofOfWork_more_fuel; eassumption.
  - intros fuel'. apply proofOfWork_Some in H as (n & _ & -> & Hq & _).
    rewrite proofOfWork_step.
    change (difficulty (calculateHash HashEngine (set_nonce n block))) with (difficulty block).
    change (nonce (calculateHash HashEngine (set_nonce n block))) with n.
    assert (Hq' : qualifies HashEngine (calculateHash HashEngine (set_nonce n block))
                    (padStart0 (difficulty block)) n = true) by exact Hq.
    rewrite Hq'. reflexivity.
Qed.

End MiningAgain.

(** ** helpers.js *)

(** The unseeded [reduce] with the [concat] of helpers.js lays the groups end
    to end in reverse order: each group goes in front of what was gathered. *)
Lemma fold_left_concat {A : Type} (rest : list (list A)) (x : list A) :
  fold_left concat rest x = List.concat (rev rest) ++ x.
Proof.
  revert x. induction rest as [|y rest IH]; intros x; [reflexivity|].
  simpl. rewrite IH, concat_app. unfold concat. simpl.
  rewrite app_nil_r, app_assoc. reflexivity.
Qed.

(** X11: [multiMap] maps the first group with the first function and the
    other groups, laid end to end in reverse order, with the second; it throws
    on the empty array and on an array with one group only.  On the two
    groups [split] returns it is the first group mapped, then the second. *)
Theorem Array_multiMap_groups {A B : Type} (fn1 fn2 : A -> B) :
  Array_multiMap [] fn1 fn2
  = Throw (TypeError "Cannot read properties of undefined (reading 'map')")
  /\ (forall first : list A,
        Array_multiMap [first] fn1 fn2
        = Throw (TypeError "Reduce of empty array with no initial value"))
  /\ (forall (first second : list A) (others : list (list A)),
        Array_multiMap (first :: second :: others) fn1 fn2
        = Return (map fn1 first ++ map fn2 (List.concat (rev (second :: others)))))
  /\ (forall (this : list A) (pred1 pred2 : A -> bool),
        Array_multiMap [(split this pred1 pred2).1; (split this pred1 pred2).2] fn1 fn2
        = Return (multiMap (split this pred1 pred2) fn1 fn2)).
Proof.
  split; [reflexivity|]. split; [reflexivity|]. split; [|reflexivity].
  intros first second others. unfold Array_multiMap, Array_reduce1.
  cbn [mbind Result_bind]. rewrite fold_left_concat.
  cbn [rev]. rewrite concat_app. simpl. rewrite app_nil_r. reflexivity.
Qed.

(** X12: [split] with a predicate and its negation loses nothing and repeats
    nothing: the two groups together are the array, up to order; and a group
    never holds an element that fails its predicate. *)
Theorem split_partition {A : Type} (this : list A) (pred : A -> bool) :
  (split this pred (fun x => negb (pred x))).1
  ++ (split this pred (fun x => negb (pred x))).2 ≡ₚ this
  /\ Forall (fun x => pred x = true) (split this pred (fun x => negb (pred x))).1
  /\ Forall (fun x => pred x = false) (split this pred (fun x => negb (pred x))).2.
Proof.
  unfold split. cbn [fst snd]. repeat split.
  - induction this as [|x this IH]; [reflexivity|].
    simpl. destruct (pred x); simpl.
    + constructor. exact IH.
    + etransitivity; [symmetry; apply Permutation_middle|]. constructor. exact IH.
  - apply Forall_forall. intros x Hx. apply filter_In in Hx. apply Hx.
  - apply Forall_forall. intros x Hx. apply filter_In in Hx.
    apply negb_true_iff. apply Hx.
Qed.

(** With any two predicates, an element lands in each group whose predicate
    it passes: in both, in one, or in none. *)
Lemma split_membership {A : Type} (this : list A) (pred1 pred2 : A -> bool) (x : A) :
  (In x (split this pred1 pred2).1 <-> In x this /\ pred1 x = true)
  /\ (In x (split this pred1 pred2).2 <-> In x this /\ pred2 x = true).
Proof. unfold split. cbn [fst snd]. split; apply filter_In. Qed.

(** ** The Validation type *)

(** X13: [Success] and [Failure] with [flatMap] and [Validation.of] satisfy
    the three monad laws. *)
Theorem Validation_monad_laws :
  (forall (E A B : Type) (a : A) (f : A -> Validation E B),
     flatMap f (Validation_of a) = f a)
  /\ (forall (E A : Type) (m : Validation E A), flatMap Validation_of m = m)
  /\ (forall (E A B C : Type) (m : Validation E A)
             (f : A -> Validation E B) (g : B -> Validation E C),
        flatMap g (flatMap f m) = flatMap (fun a => flatMap g (f a)) m).
Proof.
  split; [reflexivity|]. split.
  - intros E A m. destruct m; reflexivity.
  - intros E A B C m f g. destruct m; reflexivity.
Qed.

(** X14: [map] satisfies the functor laws, keeps a [Failure] and the class of
    the validation, and is [flatMap] followed by [Validation.of]. *)
Theorem Validation_functor_laws :
  (forall (E A : Type) (m : Validation E A), Validation_map (fun a => a) m = m)
  /\ (forall (E A B C : Type) (m : Validation E A) (f : A -> B) (g : B -> C),
        Validation_map g (Validation_map f m) = Validation_map (fun a => g (f a)) m)
  /\ (forall (E A B : Type) (m : Validation E A) (f : A -> B),
        isSuccess (Validation_map f m) = isSuccess m)
  /\ (forall (E A B : Type) (m : Validation E A) (f : A -> B),
        Validation_map f m = flatMap (fun a => Validation_of (f a)) m).
Proof.
  split; [|split; [|split]]; intros; destruct m; reflexivity.
Qed.

(** X15: [equals] compares the value this side holds with what [get()]
    gives on the other side, by [===], and looks at no class.  When the other
    side is a [Success] the answer is that of [===] on the two values, be
    this side a [Success] or a [Failure]; when the other side is a [Failure]
    the call throws the Error of [Failure.get()], whatever this side is.  So
    the answer is true exactly when the other side is the [Success] of a
    value [===] to the one held, and [equals] is not symmetric: a [Failure]
    asked about the [Success] of its value answers, the [Success] asked
    about the [Failure] throws. *)
Theorem Validation_equals_spec {V : Type} (strictEquals : V -> V -> bool) :
  (forall (this : Validation V V) (v : V),
     Validation_equals strictEquals this (Success v)
     = Return (strictEquals (Validation_val this) v))
  /\ (forall (this : Validation V V) (error : V),
        Validation_equals strictEquals this (Failure error)
        = Throw (Error "Can't extract the value of a Failure"))
  /\ (forall this other : Validation V V,
        Validation_equals strictEquals this other = Return true
        <-> exists v : V,
              other = Success v /\ strictEquals (Validation_val this) v = true)
  /\ (forall a v : V,
        Validation_equals strictEquals (Failure a) (Success v)
        = Validation_equals strictEquals (Success a) (Success v))
  /\ (forall v : V,
        Validation_equals strictEquals (Failure v) (Success v) = Return (strictEquals v v)
        /\ Validation_equals strictEquals (Success v) (Failure v)
           = Throw (Error "Can't extract the value of a Failure")).
Proof.
  split; [reflexivity|]. split; [reflexivity|]. split; [|split; [reflexivity|]].
  - intros this other. unfold Validation_equals.
    destruct other as [v|e]; cbn [Validation_get mbind Result_bind]; split.
    + intros [= Hb]. exists v. split; [reflexivity|exact Hb].
    + intros (v' & [= <-] & Hb). rewrite Hb. reflexivity.
    + discriminate.
    + intros (v' & Hv & _). discriminate Hv.
  - intros v. split; reflexivity.
Qed.

(** ** The block of listing 5.6.5 *)

(** The decision [isValid()] of the listing's block takes, check by check. *)
Lemma Listing565_isValid_cases
    (HashEngine : Z -> Z -> string -> Z -> list string -> string)
    (lookUp : string -> option Listing565.Block) (this : Listing565.Block) :
  Listing565.isValid HashEngine lookUp this
  = match lookUp (Listing565.previousHash this) with
    | None => Throw (TypeError "Cannot destructure property 'index' of undefined")
    | Some previous =>
        Return
          (if negb (bool_decide
                      (Listing565.hash this = Listing565.calculateHash HashEngine this))
           then Failure "Block hash is invalid"
           else if negb (Listing565.index previous <? Listing565.index this)
           then Failure "Block out of order"
           else if negb (Listing565.timestamp previous <=? Listing565.timestamp this)
           then Failure "Block timestamps out of order"
           else Success this)
    end.
Proof.
  unfold Listing565.isValid.
  destruct (lookUp (Listing565.previousHash this)) as [previous|]; [|reflexivity].
  f_equal. unfold composeM. cbn [rev app fold_left Validation_of flatMap].
  unfold Listing565.checkTampering.
  destruct (bool_decide (Listing565.hash this = Listing565.calculateHash HashEngine this));
    cbn [flatMap negb]; [|reflexivity].
  unfold Listing565.checkIndex.
  destruct (Listing565.index previous <? Listing565.index this);
    cbn [flatMap negb]; [|reflexivity].
  unfold Listing565.checkTimestamps.
  destruct (Listing565.timestamp previous <=? Listing565.timestamp this); reflexivity.
Qed.

(** X16: [isValid()] of the listing's block throws when the ledger holds no
    block with the hash [previousHash] names; otherwise it checks, in this
    order, the hash against the digest, the index against the previous index
    and the timestamp against the previous timestamp, answers the [Failure] of
    the first check that fails and [Success] of the block when none does. *)
Theorem Listing565_isValid_decides
    (HashEngine : Z -> Z -> string -> Z -> list string -> string)
    (lookUp : string -> option Listing565.Block) (this : Listing565.Block) :
  Listing565.isValid HashEngine lookUp this
  = match lookUp (Listing565.previousHash this) with
    | None => Throw (TypeError "Cannot destructure property 'index' of undefined")
    | Some previous =>
        Return
          (if negb (bool_decide
                      (Listing565.hash this = Listing565.calculateHash HashEngine this))
           then Failure "Block hash is invalid"
           else if negb (Listing565.index previous <? Listing565.index this)
           then Failure "Block out of order"
           else if negb (Listing565.timestamp previous <=? Listing565.timestamp this)
           then Failure "Block timestamps out of order"
           else Success this)
    end.
Proof. apply Listing565_isValid_cases. Qed.

(** X17: the scenario of the listing's test.  A block just constructed, whose
    previous block is in the ledger with a smaller index and a timestamp not
    later than its own, is valid; once its data is assigned something whose
    digest is not the stored hash, it is not: the answer is the [Failure] of
    the tampering check. *)
Theorem Listing565_new_block_valid_until_tampered
    (HashEngine : Z -> Z -> string -> Z -> list string -> string)
    (lookUp : string -> option Listing565.Block) (previous : Listing565.Block)
    (now index : Z) (previousHash : string) (data : option (list string))
    (difficulty : option Z) :
  lookUp previousHash = Some previous ->
  Listing565.index previous < index ->
  Listing565.timestamp previous <= now ->
  Listing565.isValid HashEngine lookUp
    (Listing565_new HashEngine now index previousHash data difficulty)
  = Return (Success (Listing565_new HashEngine now index previousHash data difficulty))
  /\ forall compromised : list string,
       HashEngine index now previousHash 0 compromised
       <> HashEngine index now previousHash 0 (default [] data) ->
       Listing565.isValid HashEngine lookUp
         (Listing565_set_data compromised
            (Listing565_new HashEngine now index previousHash data difficulty))
       = Return (Failure "Block hash is invalid").
Proof.
  intros Hl Hi Ht. split.
  - rewrite Listing565_isValid_cases. unfold Listing565_new.
    cbn [Listing565.previousHash Listing565.hash Listing565.index Listing565.timestamp].
    rewrite Hl. rewrite bool_decide_eq_true_2 by reflexivity.
    rewrite (proj2 (Z.ltb_lt _ _) Hi), (proj2 (Z.leb_le _ _) Ht). reflexivity.
  - intros compromised Hne. rewrite Listing565_isValid_cases.
    unfold Listing565_new, Listing565_set_data.
    cbn [Listing565.previousHash Listing565.hash Listing565.index Listing565.timestamp
         Listing565.nonce Listing565.difficulty Listing565.data].
    rewrite Hl. rewrite bool_decide_eq_false_2; [reflexivity|].
    unfold Listing565.calculateHash.
    cbn [Listing565.previousHash Listing565.index Listing565.timestamp
         Listing565.nonce Listing565.data].
    congruence.
Qed.

(** ** Transaction.isValid *)

(** X18: [isValid()] of a transaction never answers [Success] of the
    transaction: a [Success] it answers holds [true].  It succeeds exactly
    when the signature check succeeds and the tampering check succeeds on what
    the signature check handed on. *)
Theorem Transaction_isValid_outcomes
    (checkSignature checkTampering :
       DomainTransaction.t -> Validation string DomainTransaction.t)
    (tx : DomainTransaction.t) :
  (forall v : DomainTransaction.t + bool,
     DomainTransaction.isValid checkSignature checkTampering tx = Success v ->
     v = inr true)
  /\ (isSuccess (DomainTransaction.isValid checkSignature checkTampering tx) = true
      <-> exists signed : DomainTransaction.t,
            checkSignature tx = Success signed
            /\ isSuccess (checkTampering signed) = true).
Proof.
  unfold DomainTransaction.isValid, Validation_of. cbn [flatMap].
  destruct (checkSignature tx) as [signed|e]; cbn [flatMap].
  - destruct (checkTampering signed) as [passed|e] eqn:E; cbn [flatMap isSuccess].
    + split; [intros v [= <-]; reflexivity|].
      split; [intros _; exists signed; rewrite E; split; reflexivity|reflexivity].
    + split; [discriminate|].
      split; [discriminate|]. intros (s & [= <-] & Hs). rewrite E in Hs. discriminate.
  - split; [discriminate|]. cbn [isSuccess].
    split; [discriminate|]. intros (s & Hs & _). discriminate.
Qed.

(** ** Block.isValid *)

(** A block found by [lookUp] carries the hash it was looked up by. *)
Lemma lookUp_Some (bc : Blockchain.t) (h : option string) (b : Block) :
  Blockchain.lookUp bc h = Some b -> hash b = h /\ In b (Blockchain.blocks bc).
Proof.
  unfold Blockchain.lookUp. intros H. apply find_some in H as [Hin Hb].
  apply bool_decide_eq_true in Hb. split; assumption.
Qed.

(** [isValid()] of a block that is not a genesis block, case by case. *)
Lemma Block_isValid_not_genesis_cases
    (HashEngine : Z -> option string -> Z -> list Transaction -> string)
    (bc : Blockchain.t) (this : Block) :
  isGenesis this = false ->
  (forall previous : Block,
     Blockchain.lookUp bc (previousHash this) = Some previous ->
     checkLinkage previous this = true
     /\ Block_isValid HashEngine bc this
        = Return (if checkLength 64 this && checkNoTampering HashEngine this
                     && checkDifficulty (difficulty this) this
                     && checkTimestamps previous this
                  then Success true
                  else Failure [("Validation failed for block "
                                 ++ default "undefined" (hash this))%string]))
  /\ (Blockchain.lookUp bc (previousHash this) = None ->
      checkLength 64 this && checkNoTampering HashEngine this
      && checkDifficulty (difficulty this) this = false ->
      Block_isValid HashEngine bc this
      = Return (Failure [("Validation failed for block "
                          ++ default "undefined" (hash this))%string])).
Proof.
  intros Hg. unfold Block_isValid. rewrite Hg. split.
  - intros previous Hl. rewrite Hl.
    assert (Hlink : checkLinkage previous this = true).
    { apply lookUp_Some in Hl as [Hh _]. unfold checkLinkage.
      apply bool_decide_eq_true. symmetry. exact Hh. }
    split; [exact Hlink|].
    cbn [everyCheck mbind Result_bind withPrevious]. rewrite Hlink.
    destruct (checkLength 64 this); [|reflexivity].
    destruct (checkNoTampering HashEngine this); [|reflexivity].
    destruct (checkDifficulty (difficulty this) this); [|reflexivity].
    destruct (checkTimestamps previous this); reflexivity.
  - intros Hl Hfail. rewrite Hl.
    cbn [everyCheck mbind Result_bind withPrevious].
    destruct (checkLength 64 this); [|reflexivity].
    destruct (checkNoTampering HashEngine this); [|reflexivity].
    destruct (checkDifficulty (difficulty this) this); [discriminate|reflexivity].
Qed.

(** X19: [isValid()] of a block that is not a genesis block.  When the ledger
    holds a block with the hash [previousHash] names, the linkage check
    against it cannot fail, and the answer is [Success(true)] if the length,
    tampering, difficulty and timestamp checks pass and the [Failure] naming
    the block's hash otherwise.  When the ledger holds no such block and one
    of the first three checks fails, the answer is that [Failure] and nothing
    is thrown. *)
Theorem Block_isValid_not_genesis
    (HashEngine : Z -> option string -> Z -> list Transaction -> string)
    (bc : Blockchain.t) (this : Block) :
  isGenesis this = false ->
  (forall previous : Block,
     Blockchain.lookUp bc (previousHash this) = Some previous ->
     checkLinkage previous this = true
     /\ Block_isValid HashEngine bc this
        = Return (if checkLength 64 this && checkNoTampering HashEngine this
                     && checkDifficulty (difficulty this) this
                     && checkTimestamps previous this
                  then Success true
                  else Failure [("Validation failed for block "
                                 ++ default "undefined" (hash this))%string]))
  /\ (Blockchain.lookUp bc (previousHash this) = None ->
      checkLength 64 this && checkNoTampering HashEngine this
      && checkDifficulty (difficulty this) this = false ->
      Block_isValid HashEngine bc this
      = Return (Failure [("Validation failed for block "
                          ++ default "undefined" (hash this))%string])).
Proof. apply Block_isValid_not_genesis_cases. Qed.

(** ** Network.addMinerNode *)

Section NetworkNodes.
Variable MAX_NODES : nat.
Variable Node : Type.
Variable newNode : string -> Address -> Z -> Node.

Lemma nodesAfter_length (nodes : list Node) (call : string * Address * Z) :
  (List.length nodes <= MAX_NODES)%nat ->
  List.length (Network.nodesAfter MAX_NODES Node newNode nodes call)
  = Nat.min MAX_NODES (S (List.length nodes)).
Proof.
  intros Hle. unfold Network.nodesAfter, Network.addMinerNode.
  destruct (Nat.leb_spec MAX_NODES (List.length nodes)) as [Hfull|Hroom].
  - lia.
  - rewrite length_app. simpl. lia.
Qed.

(** X20: [addMinerNode] throws 'Max Nodes Exceeded!' exactly when the network
    already holds [MAX_NODES] nodes or more, and then leaves the nodes as they
    were; so from a network within the bound, any sequence of calls leaves
    [MAX_NODES] nodes at most: the earlier nodes, and one node per call until
    the bound is reached. *)
Theorem addMinerNode_keeps_bound (calls : list (string * Address * Z)) :
  forall nodes : list Node,
    (List.length nodes <= MAX_NODES)%nat ->
    List.length (fold_left (Network.nodesAfter MAX_NODES Node newNode) calls nodes)
    = Nat.min MAX_NODES (List.length nodes + List.length calls)
    /\ nodes `prefix_of` fold_left (Network.nodesAfter MAX_NODES Node newNode) calls nodes
    /\ forall (displayName : string) (address : Address) (difficulty : Z),
         (exists thrown : string,
            Network.addMinerNode MAX_NODES Node newNode nodes displayName address difficulty
            = inl thrown)
         <-> (MAX_NODES <= List.length nodes)%nat.
Proof.
  induction calls as [|call calls IH]; intros nodes Hle.
  - simpl. split; [lia|]. split; [reflexivity|].
    intros d a k. unfold Network.addMinerNode.
    destruct (Nat.leb_spec MAX_NODES (List.length nodes)); split;
      try lia; try (intros [t Ht]; discriminate); eauto.
  - cbn [fold_left].
    pose proof (nodesAfter_length nodes call Hle) as Hlen.
    destruct (IH (Network.nodesAfter MAX_NODES Node newNode nodes call) ltac:(lia))
      as (Hcount & Hprefix & _).
    split; [rewrite Hcount, Hlen; cbn [List.length]; lia|].
    split.
    + etransitivity; [|exact Hprefix].
      unfold Network.nodesAfter, Network.addMinerNode.
      destruct (MAX_NODES <=? List.length nodes)%nat; [reflexivity|].
      apply prefix_app_r. reflexivity.
    + intros d a k. unfold Network.addMinerNode.
      destruct (Nat.leb_spec MAX_NODES (List.length nodes)); split;
        try lia; try (intros [t Ht]; discriminate); eauto.
Qed.

End NetworkNodes.

(** X21: on a ledger that passes the chain test, [isValid()] of a block after
    index 0 never throws: the lookup by [previousHash] finds a block, the
    predecessor at the latest. *)
Theorem Block_isValid_returns_on_valid_chain
    (HashEngine : Z -> option string -> Z -> list Transaction -> string)
    (bc : Blockchain.t) (i : nat) (block : Block) :
  isChainValid HashEngine bc = true ->
  Blockchain.blockAt bc (S i) = Some block ->
  exists answer : Validation (list string) bool,
    Block_isValid HashEngine bc block = Return answer.
Proof.
  intros Hvalid Hb.
  destruct (isGenesis block) eqn:Hg.
  - unfold Block_isValid. rewrite Hg. eauto.
  - destruct (pairs_previous_defined bc i block Hb) as [previous Hp].
    destruct (proj1 (isChainValid_iff HashEngine bc) Hvalid i previous block Hp Hb)
      as [_ Hlink].
    destruct (Blockchain.lookUp bc (previousHash block)) as [found|] eqn:Hl.
    + destruct (proj1 (Block_isValid_not_genesis_cases HashEngine bc block Hg) found Hl)
        as [_ Hanswer].
      rewrite Hanswer. eauto.
    + exfalso. unfold Blockchain.lookUp in Hl.
      assert (Hin : In previous (Blockchain.blocks bc)).
      { apply list_elem_of_In, list_elem_of_lookup. exists i. exact Hp. }
      pose proof (find_none _ _ Hl previous Hin) as Hnone. cbv beta in Hnone.
      apply bool_decide_eq_false in Hnone. apply Hnone. symmetry. exact Hlink.
Qed.

(** ** Objects *)

(** X22: on objects, [addBlockTo] writes to the object it is handed and to no
    other: that object ends up pointing at the hash the last block had, with
    its own digest as hash, every other block object is as it was, and the
    ledger holds the references it held, then the new one. *)
Theorem Store_addBlockTo_writes_one_object
    (HashEngine : Z -> option string -> Z -> list Transaction -> string)
    (h : Store.Heap) (l : Store.Ledger) (newBlock : Store.ref) :
  (forall r : Store.ref,
     r <> newBlock -> (Store.addBlockTo HashEngine h l newBlock).1 r = h r)
  /\ (Store.addBlockTo HashEngine h l newBlock).1 newBlock
     = calculateHash HashEngine (set_previousHash (hash (h (Store.last l))) (h newBlock))
  /\ Store.refs (Store.addBlockTo HashEngine h l newBlock).2 = Store.refs l ++ [newBlock].
Proof.
  unfold Store.addBlockTo. cbn [fst snd]. unfold Store.Heap, Store.ref in *.
  split; [|split].
  - intros r Hr. rewrite !fn_lookup_insert_ne by congruence. reflexivity.
  - rewrite !fn_lookup_insert. reflexivity.
  - reflexivity.
Qed.

(** What one call of [addBlockTo] with a new block object leaves: the ledger
    read before, with the block re-linked and re-hashed pushed. *)
Lemma Store_addBlockTo_push
    (HashEngine : Z -> option string -> Z -> list Transaction -> string)
    (h : Store.Heap) (l : Store.Ledger) (newBlock : Store.ref) :
  newBlock ∉ Store.refs l ->
  Store.read (Store.addBlockTo HashEngine h l newBlock).1
             (Store.addBlockTo HashEngine h l newBlock).2
  = Blockchain.push
      (calculateHash HashEngine
         (set_previousHash (hash (Blockchain.last (Store.read h l))) (h newBlock)))
      (Store.read h l).
Proof. intros Hnew. rewrite Store_addBlockTo_read by exact Hnew. reflexivity. Qed.

(** X5: block objects added one after the other with [addBlockTo], each of
    them new (pairwise distinct, and none held by the ledger), keep a ledger
    that passes the chain test passing it; the ledger then holds the
    references it held followed by the new ones in the order of the calls,
    and the blocks it held are read as they were, at their indices. *)
Theorem Store_addBlocksTo_keeps_chain_valid
    (HashEngine : Z -> option string -> Z -> list Transaction -> string)
    (newBlocks : list Store.ref) :
  forall (h : Store.Heap) (l : Store.Ledger),
    NoDup newBlocks ->
    (forall r : Store.ref, r ∈ newBlocks -> r ∉ Store.refs l) ->
    isChainValid HashEngine (Store.read h l) = true ->
    isChainValid HashEngine
      (Store.read (Store.addBlocksTo HashEngine h l newBlocks).1
                  (Store.addBlocksTo HashEngine h l newBlocks).2) = true
    /\ Store.refs (Store.addBlocksTo HashEngine h l newBlocks).2 = Store.refs l ++ newBlocks
    /\ Blockchain.blocks (Store.read h l)
       `prefix_of` Blockchain.blocks
                     (Store.read (Store.addBlocksTo HashEngine h l newBlocks).1
                                 (Store.addBlocksTo HashEngine h l newBlocks).2).
Proof.
  induction newBlocks as [|r rs IH]; intros h l Hdup Hnew Hvalid.
  - cbn [Store.addBlocksTo fst snd]. rewrite app_nil_r.
    split; [exact Hvalid|]. split; reflexivity.
  - assert (Hr : r ∉ Store.refs l) by (apply Hnew; left).
    inversion Hdup as [|r' rs' Hrs Hdup']; subst r' rs'.
    change (Store.addBlocksTo HashEngine h l (r :: rs))
      with (Store.addBlocksTo HashEngine
              (Store.addBlockTo HashEngine h l r).1
              (Store.addBlockTo HashEngine h l r).2 rs).
    destruct (IH (Store.addBlockTo HashEngine h l r).1 (Store.addBlockTo HashEngine h l r).2)
      as (Hv & Hrefs & Hprefix).
    + exact Hdup'.
    + intros r' Hr'. change (Store.refs (Store.addBlockTo HashEngine h l r).2)
        with (Store.first l :: (Store.rest l ++ [r])).
      rewrite app_comm_cons. fold (Store.refs l).
      rewrite elem_of_app. intros [Hold|Hsame].
      * exact (Hnew r' (list_elem_of_further _ _ _ Hr') Hold).
      * apply list_elem_of_singleton in Hsame. subst r'. exact (Hrs Hr').
    + rewrite Store_addBlockTo_read by exact Hr.
      apply addBlockTo_value_preserves_isChainValid, Hvalid.
    + split; [exact Hv|]. split.
      * rewrite Hrefs.
        change (Store.refs (Store.addBlockTo HashEngine h l r).2)
          with (Store.first l :: (Store.rest l ++ [r])).
        rewrite app_comm_cons. fold (Store.refs l).
        rewrite <- app_assoc. reflexivity.
      * etransitivity; [|exact Hprefix].
        rewrite Store_addBlockTo_push by exact Hr.
        rewrite blocks_push. apply prefix_app_r. reflexivity.
Qed.

(** ** Balances after a block is added *)

(** A pushed block adds its transactions, unless it points at the sentinel
    and so counts as a genesis block. *)
Lemma transactionsPerBlock_push (b : Block) (bc : Blockchain.t) :
  transactionsPerBlock (Blockchain.push b bc)
  = transactionsPerBlock bc ++ (if isGenesis b then [] else [pendingTransactions b]).
Proof.
  unfold transactionsPerBlock. rewrite blocks_push, List.filter_app, map_app.
  simpl. destruct (isGenesis b); reflexivity.
Qed.

Section BalanceAfterAdding.
Variable HashEngine : Z -> option string -> Z -> list Transaction -> string.
Variable Money_add : Money -> Money -> Money.
Variable Money_nothing : Money.

Hypothesis Money_add_swap :
  forall total m1 m2 : Money,
    Money_add (Money_add total m1) m2 = Money_add (Money_add total m2) m1.

(** The amounts laid out for one list of transactions after another are, up
    to order, those of the first followed by those of the second. *)
Lemma signedAmounts_app (address : Address) (txs txs' : list Transaction) :
  signedAmounts address (txs ++ txs')
  ≡ₚ signedAmounts address txs ++ signedAmounts address txs'.
Proof.
  unfold signedAmounts, flatBiMap, multiMap, split.
  rewrite !List.filter_app, !map_app.
  rewrite <- !app_assoc. apply Permutation_app_head.
  rewrite !app_assoc. apply Permutation_app_tail.
  apply Permutation_app_comm.
Qed.

(** The balance after a push: that of before when the block pushed counts as
    a genesis block; otherwise the amounts of the block's transactions added
    to the balance of before, or to the zero Money when there was none. *)
Lemma calculateBalanceOfAddress_push (bc : Blockchain.t) (b : Block) (address : Address) :
  calculateBalanceOfAddress Money_add Money_nothing (Blockchain.push b bc) address
  = if isGenesis b
    then calculateBalanceOfAddress Money_add Money_nothing bc address
    else Return
           (fold_left Money_add (signedAmounts address (pendingTransactions b))
              match calculateBalanceOfAddress Money_add Money_nothing bc address with
              | Return balance => balance
              | Throw _ => Money_nothing
              end).
Proof.
  unfold calculateBalanceOfAddress. rewrite transactionsPerBlock_push.
  destruct (isGenesis b); [rewrite app_nil_r; reflexivity|].
  rewrite !Array_reduce1_ramda_concat.
  destruct (transactionsPerBlock bc) as [|x rest].
  - cbn [app List.concat mbind Result_bind]. rewrite app_nil_r. reflexivity.
  - change ((x :: rest) ++ [pendingTransactions b])
      with (x :: (rest ++ [pendingTransactions b])).
    cbn [mbind Result_bind]. f_equal. unfold Array_reduce.
    fold (signedAmounts address (List.concat (x :: rest ++ [pendingTransactions b]))).
    fold (signedAmounts address (List.concat (x :: rest))).
    rewrite app_comm_cons, concat_app. cbn [List.concat]. rewrite app_nil_r.
    fold (List.concat (x :: rest)).
    rewrite (fold_left_Money_add_Permutation Money_add Money_add_swap _ _
               (signedAmounts_app address _ _)).
    apply fold_left_app.
Qed.

(** X6: the balance of an address after [addBlockTo] added a new block
    object.  When the hash of the block that was last is not the sentinel of
    64 zero characters, it is the balance of before with the amounts of the
    new block's transactions added (those the address sent negated, then
    those it received), starting from the zero Money when the ledger held
    genesis blocks only and the call before threw.  When that hash is the
    sentinel, the block added counts as a genesis block: its transactions
    are left out and the outcome is that of before. *)
Theorem balance_after_addBlockTo
    (h : Store.Heap) (l : Store.Ledger) (newBlock : Store.ref) (address : Address) :
  newBlock ∉ Store.refs l ->
  calculateBalanceOfAddress Money_add Money_nothing
    (Store.read (Store.addBlockTo HashEngine h l newBlock).1
                (Store.addBlockTo HashEngine h l newBlock).2) address
  = if bool_decide (hash (Blockchain.last (Store.read h l)) = Some (repeat0 64))
    then calculateBalanceOfAddress Money_add Money_nothing (Store.read h l) address
    else Return
           (fold_left Money_add (signedAmounts address (pendingTransactions (h newBlock)))
              match calculateBalanceOfAddress Money_add Money_nothing (Store.read h l)
                      address with
              | Return balance => balance
              | Throw _ => Money_nothing
              end).
Proof.
  intros Hnew. rewrite Store_addBlockTo_push by exact Hnew.
  rewrite calculateBalanceOfAddress_push. reflexivity.
Qed.

End BalanceAfterAdding.

(** ** The further properties at the samples *)

Lemma isChainValid_ignores_first_block_content_witness :
  isChainValid sampleHashEngine (Blockchain.replaceAt 0 sampleForgedGenesis sampleLedger2)
  = isChainValid sampleHashEngine sampleLedger2.
Proof.
  apply (isChainValid_ignores_first_block_content sampleHashEngine sampleLedger2
           sampleForgedGenesis).
  reflexivity.
Defined.

Lemma isChainValid_last_block_rewritten_witness :
  isChainValid sampleHashEngine
    (Blockchain.replaceAt 1
       (calculateHash sampleHashEngine
          (set_previousHash (previousHash (Blockchain.last sampleLedger2))
             (mkBlock (Some 7) None [sampleTransfer3] 2 0 9000 None)))
       sampleLedger2) = true.
Proof.
  apply (isChainValid_last_block_rewritten sampleHashEngine sampleLedger2
           (mkBlock (Some 7) None [sampleTransfer3] 2 0 9000 None)).
  - discriminate.
  - vm_compute. reflexivity.
Defined.

Lemma isChainValid_successor_detects_new_hash_witness :
  isChainValid sampleHashEngine
    (Blockchain.replaceAt 0
       (calculateHash sampleHashEngine (set_timestamp 1001 sampleGenesis)) sampleLedger2)
  = false.
Proof.
  apply (isChainValid_successor_detects_new_hash sampleHashEngine sampleLedger2 0
           sampleGenesis
           (calculateHash sampleHashEngine
              (set_previousHash (hash sampleGenesis) sampleEarlyBlock))).
  - reflexivity.
  - reflexivity.
  - vm_compute. reflexivity.
  - vm_compute. discriminate.
Defined.

Lemma mineBlockTo_pushes_mined_block_witness :
  exists (mined : Block) (bc' : Blockchain.t),
    mineBlockTo sampleHashEngine 5 sampleLedger2 (mkBlock (Some 2) None [] 2 0 3007 None)
    = Some (mined, bc')
    /\ isChainValid sampleHashEngine bc' = true.
Proof.
  eexists. eexists. split; [vm_compute; reflexivity|].
  eapply (mineBlockTo_pushes_mined_block sampleHashEngine 5 sampleLedger2 _
            (mkBlock (Some 2) None [] 2 0 3007 None) _).
  - vm_compute. reflexivity.
  - vm_compute. reflexivity.
Defined.

Lemma Store_addBlocksTo_keeps_chain_valid_witness :
  isChainValid sampleHashEngine
    (Store.read
       (Store.addBlocksTo sampleHashEngine sampleHeapTransfers sampleStoreLedger
          [3%nat; 4%nat]).1
       (Store.addBlocksTo sampleHashEngine sampleHeapTransfers sampleStoreLedger
          [3%nat; 4%nat]).2) = true
  /\ Store.refs
       (Store.addBlocksTo sampleHashEngine sampleHeapTransfers sampleStoreLedger
          [3%nat; 4%nat]).2
     = [0%nat; 1%nat; 3%nat; 4%nat].
Proof.
  refine (let H := Store_addBlocksTo_keeps_chain_valid sampleHashEngine [3%nat; 4%nat]
                     sampleHeapTransfers sampleStoreLedger _ _ _ in
          conj (proj1 H) (proj1 (proj2 H))).
  - apply NoDup_cons_2; [|apply NoDup_singleton].
    intros H. apply list_elem_of_singleton in H. discriminate H.
  - intros r Hr Hold. unfold Store.refs, sampleStoreLedger in Hold.
    cbn [Store.first Store.rest] in Hold.
    apply elem_of_cons in Hr as [->|Hr];
      [|apply list_elem_of_singleton in Hr; subst r];
      (apply elem_of_cons in Hold as [Hold|Hold]; [discriminate Hold|]);
      apply list_elem_of_singleton in Hold; discriminate Hold.
  - vm_compute. reflexivity.
Defined.

Lemma balance_after_addBlockTo_witness :
  calculateBalanceOfAddress sampleMoney_add sampleMoney_nothing
    (Store.read
       (Store.addBlockTo sampleHashEngine sampleHeapTransfers sampleStoreLedger 3%nat).1
       (Store.addBlockTo sampleHashEngine sampleHeapTransfers sampleStoreLedger 3%nat).2)
    (Some "bob")
  = Return (mkMoney "" 0).
Proof.
  rewrite (balance_after_addBlockTo sampleHashEngine sampleMoney_add sampleMoney_nothing).
  - vm_compute. reflexivity.
  - intros total m1 m2. unfold sampleMoney_add. simpl. f_equal. lia.
  - unfold Store.refs, sampleStoreLedger. cbn [Store.first Store.rest].
    intros H. apply elem_of_cons in H as [H|H]; [discriminate H|].
    apply list_elem_of_singleton in H. discriminate H.
Defined.

Lemma Block_mine_again_witness :
  exists mined : Block,
    Block_mine sampleHashEngine 10 (mkBlock None None [] 1 0 16 None) = Some mined
    /\ Block_mine sampleHashEngine 1 mined = Some mined.
Proof.
  eexists. split; [vm_compute; reflexivity|].
  refine (proj2 (Block_mine_again sampleHashEngine 10 (mkBlock None None [] 1 0 16 None)
                   _ _) 0%nat).
  vm_compute. reflexivity.
Defined.

Lemma Validation_equals_spec_witness :
  Validation_equals Z.eqb (Failure 7) (Success 7) = Return true.
Proof.
  apply (proj1 (proj2 (proj2 (Validation_equals_spec Z.eqb)))).
  exists 7. split; reflexivity.
Defined.

Lemma Listing565_new_block_valid_until_tampered_witness :
  Listing565.isValid sampleHashEngine565 sampleLookUp565
    (Listing565_set_data ["data compromised"]
       (Listing565_new sampleHashEngine565 2000 1 (Listing565.hash sampleBlock565)
          (Some ["some data"]) None))
  = Return (Failure "Block hash is invalid").
Proof.
  apply (proj2 (Listing565_new_block_valid_until_tampered sampleHashEngine565
                  sampleLookUp565 sampleBlock565 2000 1 (Listing565.hash sampleBlock565)
                  (Some ["some data"]) None
                  ltac:(vm_compute; reflexivity) ltac:(simpl; lia) ltac:(simpl; lia))).
  vm_compute. discriminate.
Defined.

Lemma Transaction_isValid_outcomes_witness :
  isSuccess (DomainTransaction.isValid (fun tx => Success tx) (fun tx => Success tx)
               sampleReward) = true.
Proof.
  apply (proj2 (Transaction_isValid_outcomes (fun tx => Success tx) (fun tx => Success tx)
                  sampleReward)).
  exists sampleReward. split; reflexivity.
Defined.

Lemma Block_isValid_not_genesis_witness :
  checkLinkage sampleGenesis
    (calculateHash sampleHashEngine (set_previousHash (hash sampleGenesis) sampleEarlyBlock))
  = true.
Proof.
  refine (proj1 (proj1 (Block_isValid_not_genesis sampleHashEngine sampleLedger2
                          (calculateHash sampleHashEngine
                             (set_previousHash (hash sampleGenesis) sampleEarlyBlock))
                          _) sampleGenesis _)).
  - vm_compute. reflexivity.
  - vm_compute. reflexivity.
Defined.

Lemma addMinerNode_keeps_bound_witness :
  List.length
    (fold_left (Network.nodesAfter 2 (string * Address * Z) (fun d a k => (d, a, k)))
       [("Luke", Some "a1", 1); ("Ana", Some "a2", 3); ("Tom", Some "a3", 2)] [])
  = Nat.min 2 (0 + 3).
Proof.
  apply (addMinerNode_keeps_bound 2 (string * Address * Z) (fun d a k => (d, a, k))
           [("Luke", Some "a1", 1); ("Ana", Some "a2", 3); ("Tom", Some "a3", 2)] []).
  simpl. lia.
Defined.

Lemma Block_isValid_returns_on_valid_chain_witness :
  exists answer : Validation (list string) bool,
    Block_isValid sampleHashEngine sampleLedger2
      (calculateHash sampleHashEngine (set_previousHash (hash sampleGenesis) sampleEarlyBlock))
    = Return answer.
Proof.
  apply (Block_isValid_returns_on_valid_chain sampleHashEngine sampleLedger2 0).
  - vm_compute. reflexivity.
  - reflexivity.
Defined.

Lemma Store_addBlockTo_writes_one_object_witness :
  (Store.addBlockTo sampleHashEngine sampleHeap sampleStoreLedger 2%nat).1 1%nat
  = sampleHeap 1%nat.
Proof.
  apply (proj1 (Store_addBlockTo_writes_one_object sampleHashEngine sampleHeap
                  sampleStoreLedger 2%nat)).
  discriminate.
Defined.
